(** * Base64 string ops of tfjs-core: [encodeBase64] and [decodeBase64]

    A shallow embedding of [src/ops/string_ops.ts] (the Base64 codec applied
    element-wise to a string tensor) together with the platform primitives it
    calls ([btoa]/[atob] of the HTML standard, [Buffer] of Node.js), and the
    proofs of the properties the specification states about it.

    - JavaScript strings are lists of UTF-16 code units, each a [Z] in
      [0, 65536).
    - JavaScript 32-bit operators ([|], [&], [>>>], [<<]) are written with
      their wrap-around.
    - Exceptions are an explicit result type; arrays live in a heap of
      mutable arrays, so that allocation and in-place writes of the loops
      are visible. *)

From Stdlib Require Import ZArith Lia ZifyNat.
From stdpp Require Import base numbers list option strings gmap.

Open Scope Z_scope.

(** ** JavaScript numbers: the 32-bit integer operators *)

Definition ToUint32 (x : Z) : Z := x `mod` 2 ^ 32.
Definition ToInt32 (x : Z) : Z :=
  let u := x `mod` 2 ^ 32 in if u <? 2 ^ 31 then u else u - 2 ^ 32.
Definition ToUint16 (x : Z) : Z := x `mod` 2 ^ 16.

(** [a | b] *)
Definition js_or (a b : Z) : Z := ToInt32 (Z.lor (ToInt32 a) (ToInt32 b)).
(** [a & b] *)
Definition js_and (a b : Z) : Z := ToInt32 (Z.land (ToInt32 a) (ToInt32 b)).
(** [a >>> n] *)
Definition js_ushr (a n : Z) : Z := Z.shiftr (ToUint32 a) (ToUint32 n `mod` 32).
(** [a << n] *)
Definition js_shl (a n : Z) : Z :=
  ToInt32 (Z.shiftl (ToInt32 a) (ToUint32 n `mod` 32)).

Declare Scope js_scope.
Delimit Scope js_scope with js.
Infix ".|" := js_or (at level 50, left associativity) : js_scope.
Infix ".&" := js_and (at level 40, left associativity) : js_scope.
Infix ">>>" := js_ushr (at level 38, left associativity) : js_scope.
Infix "<<<" := js_shl (at level 38, left associativity) : js_scope.
Open Scope js_scope.

(** ** JavaScript strings *)

(** A string is its sequence of UTF-16 code units. *)
Abbreviation jsstring := (list Z).

Definition code_unit (u : Z) : Prop := 0 ≤ u < 65536.
Definition is_jsstring (s : jsstring) : Prop := Forall code_unit s.

Definition code_unitb (u : Z) : bool := (0 <=? u) && (u <? 65536).
Definition is_jsstringb (s : jsstring) : bool := forallb code_unitb s.

(** String literals of the source restricted to ASCII. *)
Definition lit (s : string) : jsstring :=
  (λ c, Z.of_N (Ascii.N_of_ascii c)) <$> String.list_ascii_of_string s.

Definition is_lead_surrogate (u : Z) : bool := (0xD800 <=? u) && (u <=? 0xDBFF).
Definition is_trail_surrogate (u : Z) : bool := (0xDC00 <=? u) && (u <=? 0xDFFF).

(** Well-formed UTF-16 ("valid Unicode string"): every code unit is in
    range and every surrogate is half of a lead/trail pair. *)
Fixpoint well_formedb (s : jsstring) : bool :=
  match s with
  | [] => true
  | u :: t =>
      if is_lead_surrogate u then
        match t with
        | v :: t' => is_trail_surrogate v && well_formedb t'
        | [] => false
        end
      else code_unitb u && negb (is_trail_surrogate u) && well_formedb t
  end.
Definition well_formed (s : jsstring) : Prop := well_formedb s = true.

(** [String.prototype.codePointAt(0)]; [None] is [undefined]. *)
Definition codePointAt0 (s : jsstring) : option Z :=
  match s with
  | [] => None
  | u :: t =>
      if is_lead_surrogate u then
        match t with
        | v :: _ =>
            if is_trail_surrogate v
            then Some ((u - 0xD800) * 0x400 + (v - 0xDC00) + 0x10000)
            else Some u
        | [] => Some u
        end
      else Some u
  end.

(** [Array.from(str)]: the string iterator yields one string per code
    point; an unpaired surrogate is yielded on its own. *)
Fixpoint Array_from (s : jsstring) : list jsstring :=
  match s with
  | [] => []
  | u :: t =>
      match t with
      | v :: t' =>
          if is_lead_surrogate u && is_trail_surrogate v
          then [u; v] :: Array_from t'
          else [u] :: Array_from t
      | [] => [[u]]
      end
  end.

(** [String.fromCharCode(x)] *)
Definition fromCharCode (x : Z) : jsstring := [ToUint16 x].

(** Exceptions *)
Inductive exn : Type :=
  | InvalidCharacterError   (* DOMException of btoa / atob *)
  | RangeError              (* String.fromCodePoint *)
  | TypeError               (* method call on undefined *)
  | InputTypeError.         (* the host refuses a tensor that is not of strings *)

Inductive result (A : Type) : Type :=
  | Ok (a : A)
  | Throw (e : exn).
Arguments Ok {A} a.
Arguments Throw {A} e.

#[global] Instance result_ret : MRet result := λ A a, Ok a.
#[global] Instance result_bind : MBind result := λ A B f m,
  match m with Ok a => f a | Throw e => Throw e end.
#[global] Instance result_fmap : FMap result := λ A B f m,
  match m with Ok a => Ok (f a) | Throw e => Throw e end.

#[global] Instance exn_eq_dec : EqDecision exn.
Proof. solve_decision. Defined.

(** [String.fromCodePoint(cp)] *)
Definition fromCodePoint (cp : Z) : result jsstring :=
  if (cp <? 0) || (0x10FFFF <? cp) then Throw RangeError
  else if cp <=? 0xFFFF then Ok [cp]
  else Ok [(cp - 0x10000) `div` 0x400 + 0xD800;
           (cp - 0x10000) `mod` 0x400 + 0xDC00].

(** [str.replace(/c/g, r)] for a one-character pattern [c] and a literal
    replacement string [r]. *)
Definition replace_char (c : Z) (r : jsstring) (s : jsstring) : jsstring :=
  s ≫= (λ u, if u =? c then r else [u]).

(** A regular expression that is an alternation of fixed sequences of
    character ranges, as [multibyteSeq]; matching is on code units (no [u]
    flag). [Some n]: the first alternative matching a prefix of [s] has
    length [n]. *)
Definition in_class (cls : Z * Z) (u : Z) : bool := (cls.1 <=? u) && (u <=? cls.2).

Fixpoint match_classes (classes : list (Z * Z)) (s : jsstring) : bool :=
  match classes, s with
  | [], _ => true
  | cls :: classes', u :: t => in_class cls u && match_classes classes' t
  | _ :: _, [] => false
  end.

Fixpoint regex_exec (alts : list (list (Z * Z))) (s : jsstring) : option nat :=
  match alts with
  | [] => None
  | a :: alts' => if match_classes a s then Some (length a) else regex_exec alts' s
  end.

(** [str.replace(re, callback)] for a global [re] as above whose matches
    are not empty: scanning left to right, each match is replaced by the
    result of the callback on the matched substring and the scan resumes
    after the match; an exception of the callback propagates. [skip] counts
    the code units of [s] that belong to the match just replaced. *)
Fixpoint replace_go (alts : list (list (Z * Z)))
    (callback : jsstring → result jsstring) (skip : nat) (s : jsstring)
    : result jsstring :=
  match s with
  | [] => Ok []
  | u :: t =>
      match skip with
      | S k => replace_go alts callback k t
      | O =>
          match regex_exec alts s with
          | Some n =>
              r ← callback (take n s);
              rest ← replace_go alts callback (pred n) t;
              Ok (r ++ rest)
          | None =>
              rest ← replace_go alts callback O t;
              Ok (u :: rest)
          end
      end
  end.

Definition replace_regex (alts : list (list (Z * Z)))
    (callback : jsstring → result jsstring) (s : jsstring) : result jsstring :=
  replace_go alts callback O s.

(** ** Platform primitives

    [btoa], [atob] and [Buffer] are built into the JavaScript host and are
    not code of the repository. They are written here after their
    definitions: [btoa] and [atob] after the HTML standard (forgiving-base64
    encode and decode), [Buffer] after the Node.js documentation and the
    behaviour of its decoders on malformed input (a lenient Base64 decoder,
    a UTF-8 decoder that substitutes U+FFFD). *)

(** *** Base64 of RFC 4648, as [btoa] and [Buffer.toString('base64')] produce it *)

Definition base64_table : jsstring :=
  lit "ABCDEFGHIJKLMNOPQRSTUVWXYZabcdefghijklmnopqrstuvwxyz0123456789+/".

Definition base64_char (i : Z) : Z := default 0 (base64_table !! Z.to_nat i).

Fixpoint index_of (c : Z) (l : list Z) : option nat :=
  match l with
  | [] => None
  | x :: l' => if x =? c then Some O else S <$> index_of c l'
  end.

Definition base64_index (c : Z) : option Z := Z.of_nat <$> index_of c base64_table.

(** The character [=] *)
Definition EQ : Z := 61.

Fixpoint base64_encode (bytes : list Z) : jsstring :=
  match bytes with
  | [] => []
  | [a] =>
      [base64_char (a ≫ 2); base64_char (Z.land a 3 ≪ 4); EQ; EQ]
  | [a; b] =>
      [base64_char (a ≫ 2); base64_char (Z.lor (Z.land a 3 ≪ 4) (b ≫ 4));
       base64_char (Z.land b 15 ≪ 2); EQ]
  | a :: b :: c :: rest =>
      [base64_char (a ≫ 2); base64_char (Z.lor (Z.land a 3 ≪ 4) (b ≫ 4));
       base64_char (Z.lor (Z.land b 15 ≪ 2) (c ≫ 6)); base64_char (Z.land c 63)]
      ++ base64_encode rest
  end.

(** *** [btoa] and [atob] (HTML standard, forgiving-base64) *)

Definition is_byte (u : Z) : bool := (0 <=? u) && (u <=? 0xFF).

(** [btoa(data)]: throws when a code unit is above U+00FF, otherwise the
    Base64 encoding of the code units taken as bytes. *)
Definition btoa (data : jsstring) : result jsstring :=
  if forallb is_byte data then Ok (base64_encode data)
  else Throw InvalidCharacterError.

Definition is_ascii_whitespace (u : Z) : bool :=
  (u =? 9) || (u =? 10) || (u =? 12) || (u =? 13) || (u =? 32).

(** Removes one or two trailing [=]. *)
Definition remove_padding (data : jsstring) : jsstring :=
  match reverse data with
  | c1 :: r1 =>
      if c1 =? EQ then
        match r1 with
        | c2 :: r2 => if c2 =? EQ then reverse r2 else reverse r1
        | [] => reverse r1
        end
      else data
  | [] => data
  end.

(** The decoding loop of forgiving-base64 decode: six bits per character
    are appended to [buffer]; 24 accumulated bits give three bytes; at the
    end 12 bits give one byte and 18 bits give two. *)
Fixpoint forgiving_loop (data : jsstring) (buffer : Z) (nbits : nat)
    (output : list Z) : list Z :=
  match data with
  | [] =>
      if (nbits =? 12)%nat then output ++ [buffer ≫ 4]
      else if (nbits =? 18)%nat then
        output ++ [(buffer ≫ 2) ≫ 8; Z.land (buffer ≫ 2) 255]
      else output
  | c :: rest =>
      let buffer := buffer ≪ 6 + default 0 (base64_index c) in
      let nbits := (nbits + 6)%nat in
      if (nbits =? 24)%nat then
        forgiving_loop rest 0 O
          (output ++ [buffer ≫ 16; Z.land (buffer ≫ 8) 255; Z.land buffer 255])
      else forgiving_loop rest buffer nbits output
  end.

Definition atob (data : jsstring) : result jsstring :=
  let data := filter (λ u, negb (is_ascii_whitespace u) = true) data in
  let data := if (length data mod 4 =? 0)%nat then remove_padding data else data in
  if (length data mod 4 =? 1)%nat then Throw InvalidCharacterError
  else if negb (forallb (λ c, bool_decide (is_Some (base64_index c))) data)
  then Throw InvalidCharacterError
  else Ok (forgiving_loop data 0 O []).

(** *** Node.js [Buffer] *)

(** [Buffer.from(str)] (encoding 'utf8'): the UTF-8 bytes of the string; an
    unpaired surrogate is written as U+FFFD. *)
Fixpoint Buffer_from (s : jsstring) : list Z :=
  match s with
  | [] => []
  | u :: t =>
      if u <? 0x80 then u :: Buffer_from t
      else if u <? 0x800 then
        [0xC0 + u `div` 64; 0x80 + u `mod` 64] ++ Buffer_from t
      else if is_lead_surrogate u then
        match t with
        | v :: t' =>
            if is_trail_surrogate v then
              let cp := (u - 0xD800) * 0x400 + (v - 0xDC00) + 0x10000 in
              [0xF0 + cp `div` 262144; 0x80 + (cp `div` 4096) `mod` 64;
               0x80 + (cp `div` 64) `mod` 64; 0x80 + cp `mod` 64]
              ++ Buffer_from t'
            else [0xEF; 0xBF; 0xBD] ++ Buffer_from t
        | [] => [0xEF; 0xBF; 0xBD]
        end
      else if is_trail_surrogate u then [0xEF; 0xBF; 0xBD] ++ Buffer_from t
      else
        [0xE0 + u `div` 4096; 0x80 + (u `div` 64) `mod` 64; 0x80 + u `mod` 64]
        ++ Buffer_from t
  end.

(** [buf.toString('base64')] *)
Definition Buffer_toString_base64 (bytes : list Z) : jsstring :=
  base64_encode bytes.

(** [Buffer.from(str, 'base64')]: the decoder reads the low byte of every
    code unit; both alphabets are accepted, a character outside them is
    skipped, and decoding stops at the first [=]; a final group of two or
    three characters gives one or two bytes. *)
Definition unbase64 (c : Z) : option Z :=
  let c := Z.land c 0xFF in
  if c =? 45 then Some 62 else if c =? 95 then Some 63 else base64_index c.

Fixpoint until_padding (s : jsstring) : jsstring :=
  match s with
  | [] => []
  | c :: t => if Z.land c 0xFF =? EQ then [] else c :: until_padding t
  end.

Fixpoint base64_decode_groups (sextets : list Z) : list Z :=
  match sextets with
  | a :: b :: c :: d :: rest =>
      [Z.lor (Z.land a 0x3F ≪ 2) (Z.land b 0x30 ≫ 4);
       Z.lor (Z.land b 0x0F ≪ 4) (Z.land c 0x3C ≫ 2);
       Z.lor (Z.land c 0x03 ≪ 6) (Z.land d 0x3F)]
      ++ base64_decode_groups rest
  | [a; b; c] =>
      [Z.lor (Z.land a 0x3F ≪ 2) (Z.land b 0x30 ≫ 4);
       Z.lor (Z.land b 0x0F ≪ 4) (Z.land c 0x3C ≫ 2)]
  | [a; b] => [Z.lor (Z.land a 0x3F ≪ 2) (Z.land b 0x30 ≫ 4)]
  | _ => []
  end.

Definition Buffer_from_base64 (s : jsstring) : list Z :=
  base64_decode_groups (omap unbase64 (until_padding s)).

(** [buf.toString()] (encoding 'utf8'): the UTF-8 decoder; every maximal
    ill-formed subsequence is replaced by U+FFFD. [cp] is the code point
    being assembled, [needed] the number of continuation bytes still
    expected, [lower] and [upper] the bounds of the next one. *)
Definition code_point_units (cp : Z) : jsstring :=
  if cp <=? 0xFFFF then [cp]
  else [(cp - 0x10000) `div` 0x400 + 0xD800; (cp - 0x10000) `mod` 0x400 + 0xDC00].

Fixpoint utf8_decode (bytes : list Z) (cp : Z) (needed : nat) (lower upper : Z)
    : jsstring :=
  match bytes with
  | [] => match needed with O => [] | S _ => [0xFFFD] end
  | b :: rest =>
      let start :=
        if (0 <=? b) && (b <=? 0x7F) then b :: utf8_decode rest 0 O 0x80 0xBF
        else if (0xC2 <=? b) && (b <=? 0xDF) then
          utf8_decode rest (Z.land b 0x1F) 1 0x80 0xBF
        else if (0xE0 <=? b) && (b <=? 0xEF) then
          utf8_decode rest (Z.land b 0xF) 2
            (if b =? 0xE0 then 0xA0 else 0x80) (if b =? 0xED then 0x9F else 0xBF)
        else if (0xF0 <=? b) && (b <=? 0xF4) then
          utf8_decode rest (Z.land b 0x7) 3
            (if b =? 0xF0 then 0x90 else 0x80) (if b =? 0xF4 then 0x8F else 0xBF)
        else 0xFFFD :: utf8_decode rest 0 O 0x80 0xBF in
      match needed with
      | O => start
      | S k =>
          if (lower <=? b) && (b <=? upper) then
            let cp := Z.lor (cp ≪ 6) (Z.land b 0x3F) in
            match k with
            | O => code_point_units cp ++ utf8_decode rest 0 O 0x80 0xBF
            | S _ => utf8_decode rest cp k 0x80 0xBF
            end
          else 0xFFFD :: start
      end
  end.

Definition Buffer_toString (bytes : list Z) : jsstring :=
  utf8_decode bytes 0 O 0x80 0xBF.

(** ** The source: [string_ops.ts] *)

(** The JavaScript hosts the module can be loaded in, by the globals they
    define: a Node.js without [atob]/[btoa], a browser, and a Node.js that
    defines all three. *)
Inductive Platform : Type := LegacyNode | Browser | ModernNode.

Definition Buffer_defined (p : Platform) : bool :=
  match p with Browser => false | _ => true end.
Definition atob_defined (p : Platform) : bool :=
  match p with LegacyNode => false | _ => true end.
Definition btoa_defined (p : Platform) : bool :=
  match p with LegacyNode => false | _ => true end.

(** [const runningInNode = typeof Buffer !== 'undefined' &&
      (typeof atob === 'undefined' || typeof btoa === 'undefined')] *)
Definition runningInNode (p : Platform) : bool :=
  Buffer_defined p && (negb (atob_defined p) || negb (btoa_defined p)).

(** [str.replace(/\+/g, '-').replace(/\//g, '_')] *)
Definition toUrlSafe (str : jsstring) : jsstring :=
  replace_char 47 (lit "_") (replace_char 43 (lit "-") str).

(** [str.replace(/-/g, '+').replace(/_/g, '/')] *)
Definition fromUrlSafe (str : jsstring) : jsstring :=
  replace_char 95 (lit "/") (replace_char 45 (lit "+") str).

(** A comparison [cp < n] where [cp] may be [undefined] (then [NaN < n] is
    false), and the integer a bit operator makes of it (then 0). *)
Definition js_lt (cp : option Z) (n : Z) : bool :=
  match cp with Some c => c <? n | None => false end.
Definition js_int (cp : option Z) : Z := default 0 cp.

Definition utf16ToUtf8Multibyte (char : jsstring) : jsstring :=
  let cp := codePointAt0 char in
  if js_lt cp 0x80 then
    char
  else if js_lt cp 0x800 then
    fromCharCode (0xc0 .| (js_int cp >>> 6)) ++
    fromCharCode (0x80 .| (js_int cp .& 0x3f))
  else if js_lt cp 0x10000 then
    fromCharCode (0xe0 .| ((js_int cp >>> 12) .& 0x0f)) ++
    fromCharCode (0x80 .| ((js_int cp >>> 6) .& 0x3f)) ++
    fromCharCode (0x80 .| (js_int cp .& 0x3f))
  else
    fromCharCode (0xf0 .| ((js_int cp >>> 18) .& 0x07)) ++
    fromCharCode (0x80 .| ((js_int cp >>> 12) .& 0x3f)) ++
    fromCharCode (0x80 .| ((js_int cp >>> 6) .& 0x3f)) ++
    fromCharCode (0x80 .| (js_int cp .& 0x3f)).

Definition utf8MultibyteToUtf16 (seq : jsstring) : result jsstring :=
  match seq with
  | [c0; c1] =>
      fromCodePoint (((0x1f .& c0) <<< 6) + (0x3f .& c1))
  | [c0; c1; c2] =>
      fromCodePoint (((0x0f .& c0) <<< 12) + ((0x3f .& c1) <<< 6) + (0x3f .& c2))
  | [c0; c1; c2; c3] =>
      fromCodePoint (((0x07 .& c0) <<< 18) + ((0x3f .& c1) <<< 12) +
                     ((0x3f .& c2) <<< 6) + (0x3f .& c3))
  | _ => Ok seq
  end.

(** [/[\xC0-\xDF][\x80-\xBF]|[\xE0-\xEF][\x80-\xBF]{2}|[\xF0-\xF7][\x80-\xBF]{3}/g] *)
Definition multibyteSeq : list (list (Z * Z)) :=
  [ [(0xC0, 0xDF); (0x80, 0xBF)];
    [(0xE0, 0xEF); (0x80, 0xBF); (0x80, 0xBF)];
    [(0xF0, 0xF7); (0x80, 0xBF); (0x80, 0xBF); (0x80, 0xBF)] ].

(** The body of the loop of [encodeBase64_] on one value [bVal]. *)
Definition encode_value (p : Platform) (pad : bool) (bVal : jsstring)
    : result jsstring :=
  bVal ← (if runningInNode p then
            Ok (Buffer_toString_base64 (Buffer_from bVal))
          else
            let bVal := mjoin (utf16ToUtf8Multibyte <$> Array_from bVal) in
            btoa bVal);
  let bVal := toUrlSafe bVal in
  let bVal := if negb pad then replace_char EQ [] bVal else bVal in
  Ok bVal.

(** The body of the loop of [decodeBase64_] on one value. *)
Definition decode_value (p : Platform) (value : jsstring) : result jsstring :=
  let sVal := fromUrlSafe value in
  if runningInNode p then
    Ok (Buffer_toString (Buffer_from_base64 sVal))
  else
    s ← atob sVal;
    replace_regex multibyteSeq utf8MultibyteToUtf16 s.

(** ** Arrays, the heap and tensors *)

(** What an array slot holds: a string, or [undefined] (a hole of
    [new Array(n)]). *)
Inductive jsval : Type :=
  | JUndefined
  | JString (s : jsstring).

Definition loc : Type := positive.

(** The heap of JavaScript arrays. *)
Abbreviation heap := (gmap loc (list jsval)).

(** A computation reads and writes the heap and returns or throws. *)
Inductive outcome (A : Type) : Type :=
  | Done (a : A) (h : heap)
  | Raise (e : exn) (h : heap).
Arguments Done {A} a h.
Arguments Raise {A} e h.

Definition M (A : Type) : Type := heap → outcome A.

#[global] Instance M_ret : MRet M := λ A a h, Done a h.
#[global] Instance M_bind : MBind M := λ A B f m h,
  match m h with
  | Done a h' => f a h'
  | Raise e h' => Raise e h'
  end.

Definition lift {A} (r : result A) : M A := λ h,
  match r with Ok a => Done a h | Throw e => Raise e h end.

(** [new Array(n)]: a fresh array of [n] holes. *)
Definition new_Array (n : nat) : M loc := λ h,
  let l := fresh (dom h) in
  Done l (<[l := replicate n JUndefined]> h).

(** [arr.length] *)
Definition array_length (arr : loc) : M nat := λ h,
  match h !! arr with
  | Some vs => Done (length vs) h
  | None => Raise TypeError h
  end.

(** [arr[i]]: [undefined] outside the array. *)
Definition array_get (arr : loc) (i : nat) : M jsval := λ h,
  match h !! arr with
  | Some vs => Done (default JUndefined (vs !! i)) h
  | None => Raise TypeError h
  end.

(** [arr[i] = v]: an index past the end extends the array with holes. *)
Definition js_array_set (vs : list jsval) (i : nat) (v : jsval) : list jsval :=
  if decide (i < length vs)%nat then <[i := v]> vs
  else vs ++ replicate (i - length vs) JUndefined ++ [v].

Definition array_set (arr : loc) (i : nat) (v : jsval) : M () := λ h,
  match h !! arr with
  | Some vs => Done () (<[arr := js_array_set vs i v]> h)
  | None => Raise TypeError h
  end.

(** [x.toString()] *)
Definition toString (x : jsval) : M jsstring :=
  match x with
  | JString s => mret s
  | JUndefined => lift (Throw TypeError)
  end.

(** [for (let i = i0; i < i0 + n; ++i) body(i)]. The loops of the source
    test [i < values.length]; their bodies assign to [resultValues] only,
    which is a new array, so that the length of [values] is the same at
    every test and is read once. *)
Fixpoint for_loop (n : nat) (i : nat) (body : nat → M ()) : M () :=
  match n with
  | O => mret ()
  | S n' => body i ≫= λ _, for_loop n' (S i) body
  end.

Inductive DType : Type := float32 | int32 | bool_ | complex64 | string_.

#[global] Instance DType_eq_dec : EqDecision DType.
Proof. solve_decision. Defined.

(** A tensor: its shape, its dtype and the array of its values. *)
Record Tensor : Type := mkTensor {
  shape : list nat;
  dtype : DType;
  dataId : loc;
}.

(** [t.size]: the number of elements of the shape. *)
Definition size (t : Tensor) : nat := foldr Nat.mul 1%nat (shape t).

(** Modelled from the spec: [convertToTensor] of [tensor_util_env.ts] is not
    among the sources. The host "is responsible for validating that all
    elements of the input collection are textual before delegating to the
    codec": a tensor of the expected dtype is returned as it is, another
    dtype is refused. *)
Definition convertToTensor (x : Tensor) (parseAsDtype : DType) : M Tensor :=
  if decide (dtype x = parseAsDtype) then mret x else lift (Throw InputTypeError).

(** Modelled from the spec: [dataSync] and [Tensor.make] of [tensor.ts] are
    not among the sources. The tensor machinery "is a pass-through
    container": [dataSync] gives the array of the values, [Tensor.make]
    builds the tensor of a shape, an array of values and a dtype. *)
Definition dataSync (t : Tensor) : loc := dataId t.
Definition Tensor_make (shape : list nat) (values : loc) (dtype : DType) : Tensor :=
  mkTensor shape dtype values.

Definition encodeBase64_ (p : Platform) (str : Tensor) (pad : bool) : M Tensor :=
  str' ← convertToTensor str string_;
  resultValues ← new_Array (size str');
  let values := dataSync str' in
  len ← array_length values;
  _ ← for_loop len O (λ i,
        x ← array_get values i;
        bVal ← toString x;
        bVal ← lift (encode_value p pad bVal);
        array_set resultValues i (JString bVal));
  mret (Tensor_make (shape str') resultValues (dtype str')).

(** [pad = false] is the default of the parameter. *)
Definition encodeBase64_default (p : Platform) (str : Tensor) : M Tensor :=
  encodeBase64_ p str false.

Definition decodeBase64_ (p : Platform) (str : Tensor) : M Tensor :=
  str' ← convertToTensor str string_;
  resultValues ← new_Array (size str');
  let values := dataSync str' in
  len ← array_length values;
  _ ← for_loop len O (λ i,
        x ← array_get values i;
        sVal ← toString x;
        sVal ← lift (decode_value p sVal);
        array_set resultValues i (JString sVal));
  mret (Tensor_make (shape str') resultValues (dtype str')).

(** * The encoding as the specification words it (section 4.1, [encode_one])

    1. the UTF-8 bytes of the value, by the byte-length rule; 2. standard
    Base64 of RFC 4648 with [=] padding; 3. [+] and [/] replaced by [-] and
    [_]; 4. without [pad], the trailing [=] stripped. *)

(** The code points of a string: a lead surrogate followed by a trail
    surrogate is one code point, any other code unit is a code point. *)
Fixpoint code_points (s : jsstring) : list Z :=
  match s with
  | [] => []
  | u :: t =>
      match t with
      | v :: t' =>
          if is_lead_surrogate u && is_trail_surrogate v
          then ((u - 0xD800) * 0x400 + (v - 0xDC00) + 0x10000) :: code_points t'
          else u :: code_points t
      | [] => [u]
      end
  end.

(** The UTF-8 bytes of a code point, by the byte-length rule:
    [0xxxxxxx], [110xxxxx 10xxxxxx], [1110xxxx 10xxxxxx 10xxxxxx],
    [11110xxx 10xxxxxx 10xxxxxx 10xxxxxx]. *)
Definition utf8_code_point (cp : Z) : list Z :=
  if cp <? 0x80 then [cp]
  else if cp <? 0x800 then [0xC0 + cp `div` 64; 0x80 + cp `mod` 64]
  else if cp <? 0x10000 then
    [0xE0 + cp `div` 4096; 0x80 + (cp `div` 64) `mod` 64; 0x80 + cp `mod` 64]
  else
    [0xF0 + cp `div` 262144; 0x80 + (cp `div` 4096) `mod` 64;
     0x80 + (cp `div` 64) `mod` 64; 0x80 + cp `mod` 64].

Definition utf8_bytes (s : jsstring) : list Z :=
  mjoin (utf8_code_point <$> code_points s).

(** The alphabet [A-Z a-z 0-9 + /] by position. *)
Definition rfc4648_char (i : Z) : Z :=
  if i <? 26 then 65 + i
  else if i <? 52 then 97 + (i - 26)
  else if i <? 62 then 48 + (i - 52)
  else if i =? 62 then 43
  else 47.

(** Three bytes are a 24-bit group of four 6-bit positions; a final group
    of one or two bytes is completed with zero bits and padded with [=]. *)
Fixpoint rfc4648_encode (bytes : list Z) : jsstring :=
  match bytes with
  | [] => []
  | [a] =>
      let n := a * 16 in
      [rfc4648_char (n `div` 64); rfc4648_char (n `mod` 64); EQ; EQ]
  | [a; b] =>
      let n := (a * 256 + b) * 4 in
      [rfc4648_char (n `div` 4096); rfc4648_char ((n `div` 64) `mod` 64);
       rfc4648_char (n `mod` 64); EQ]
  | a :: b :: c :: rest =>
      let n := a * 65536 + b * 256 + c in
      [rfc4648_char (n `div` 262144); rfc4648_char ((n `div` 4096) `mod` 64);
       rfc4648_char ((n `div` 64) `mod` 64); rfc4648_char (n `mod` 64)]
      ++ rfc4648_encode rest
  end.

Definition spec_url_safe (s : jsstring) : jsstring :=
  (λ c, if c =? 43 then 45 else if c =? 47 then 95 else c) <$> s.

Fixpoint strip_trailing_padding (s : jsstring) : jsstring :=
  match s with
  | [] => []
  | c :: t =>
      match strip_trailing_padding t with
      | [] => if c =? EQ then [] else [c]
      | r => c :: r
      end
  end.

Definition spec_encode_one (pad : bool) (v : jsstring) : jsstring :=
  let encoded := spec_url_safe (rfc4648_encode (utf8_bytes v)) in
  if pad then encoded else strip_trailing_padding encoded.

(** * Definitions of the proofs *)

(** A property of every number below a bound, to be checked by evaluation. *)

Fixpoint all_below (n : nat) (P : Z → bool) : bool :=
  match n with
  | O => true
  | S k => P (Z.of_nat k) && all_below k P
  end.

Definition byte (u : Z) : Prop := 0 ≤ u < 256.

(** The encoding without its padding, and the padding. *)
Fixpoint base64_body (bytes : list Z) : jsstring :=
  match bytes with
  | [] => []
  | [a] => [base64_char (a ≫ 2); base64_char (Z.land a 3 ≪ 4)]
  | [a; b] =>
      [base64_char (a ≫ 2); base64_char (Z.lor (Z.land a 3 ≪ 4) (b ≫ 4));
       base64_char (Z.land b 15 ≪ 2)]
  | a :: b :: c :: rest =>
      [base64_char (a ≫ 2); base64_char (Z.lor (Z.land a 3 ≪ 4) (b ≫ 4));
       base64_char (Z.lor (Z.land b 15 ≪ 2) (c ≫ 6)); base64_char (Z.land c 63)]
      ++ base64_body rest
  end.

Fixpoint base64_padding (bytes : list Z) : jsstring :=
  match bytes with
  | [] => []
  | [_] => [EQ; EQ]
  | [_; _] => [EQ]
  | _ :: _ :: _ :: rest => base64_padding rest
  end.

(** What holds of every character of the table. *)
Definition table_char (c : Z) : Prop :=
  c ≠ EQ ∧ c ≠ 45 ∧ c ≠ 95 ∧ is_ascii_whitespace c = false ∧
  is_Some (base64_index c).

Definition is_code_point (cp : Z) : Prop := 0 ≤ cp < 0x110000.

Definition is_scalar_value (cp : Z) : Prop :=
  is_code_point cp ∧ ¬ (0xD800 ≤ cp ≤ 0xDFFF).

(** The bytes [encodeBase64_] encodes in Base64 on a platform. *)
Definition platform_bytes (p : Platform) (s : jsstring) : list Z :=
  if runningInNode p then Buffer_from s else utf8_bytes s.

(** The loops of [encodeBase64_] and [decodeBase64_] are the same but for the
    function [f] applied to each value. *)
Definition tensor_map (f : jsstring → result jsstring) (str : Tensor) : M Tensor :=
  str' ← convertToTensor str string_;
  resultValues ← new_Array (size str');
  let values := dataSync str' in
  len ← array_length values;
  _ ← for_loop len O (λ i,
        x ← array_get values i;
        sVal ← toString x;
        sVal ← lift (f sVal);
        array_set resultValues i (JString sVal));
  mret (Tensor_make (shape str') resultValues (dtype str')).

(** The loop on the arrays themselves: [arr] is read, [res] is written;
    [inl] is an exception, with the array as it was left. *)
Fixpoint loop_pure (f : jsstring → result jsstring) (arr : list jsval)
    (n i : nat) (res : list jsval) : exn * list jsval + list jsval :=
  match n with
  | O => inr res
  | S n' =>
      match default JUndefined (arr !! i) with
      | JUndefined => inl (TypeError, res)
      | JString s =>
          match f s with
          | Throw e => inl (e, res)
          | Ok r => loop_pure f arr n' (S i) (js_array_set res i (JString r))
          end
      end
  end.

(** The heap an outcome leaves, and what a caller observes of the outcome:
    the shape and the values of the tensor returned, or the exception. *)
Definition outcome_heap {A} (o : outcome A) : heap :=
  match o with Done _ h => h | Raise _ h => h end.

Definition observed (o : outcome Tensor) : result (list nat * DType * list jsval) :=
  match o with
  | Done t h => Ok (shape t, dtype t, default [] (h !! dataId t))
  | Raise e _ => Throw e
  end.

(** ** Test values

    The strings of [string_ops_test.ts] ([txtArr]) as UTF-16 code units, with
    their expected encodings ([b64Arr], [b64ArrPad]). *)
Definition txtArr : list jsstring :=
  [ lit "Hello TensorFlow.js!";
    [0xD834; 0xDF06];
    lit "Pre" ++ [0x2014] ++ lit "trained models with Base64 ops.";
    [73; 32; 0x2764; 0xFE0F; 32; 0xD83C; 0xDDE8; 0xD83C; 0xDDFB];
    lit "https://www.tensorflow.org/js";
    [0xE0; 0x3B2; 0xC7; 100; 0xE9; 102];
    [0x4F60; 0x597D; 44; 32; 0x4E16; 0x754C];
    lit "Build, train, & deploy" ++ [10] ++ lit "ML models in JS" ].

Definition b64Arr : list jsstring :=
  [ lit "SGVsbG8gVGVuc29yRmxvdy5qcyE"; lit "8J2Mhg";
    lit "UHJl4oCUdHJhaW5lZCBtb2RlbHMgd2l0aCBCYXNlNjQgb3BzLg";
    lit "SSDinaTvuI8g8J-HqPCfh7s"; lit "aHR0cHM6Ly93d3cudGVuc29yZmxvdy5vcmcvanM";
    lit "w6DOssOHZMOpZg"; lit "5L2g5aW9LCDkuJbnlYw";
    lit "QnVpbGQsIHRyYWluLCAmIGRlcGxveQpNTCBtb2RlbHMgaW4gSlM" ].

Definition b64ArrPad : list jsstring :=
  [ lit "SGVsbG8gVGVuc29yRmxvdy5qcyE="; lit "8J2Mhg==";
    lit "UHJl4oCUdHJhaW5lZCBtb2RlbHMgd2l0aCBCYXNlNjQgb3BzLg==";
    lit "SSDinaTvuI8g8J-HqPCfh7s="; lit "aHR0cHM6Ly93d3cudGVuc29yZmxvdy5vcmcvanM=";
    lit "w6DOssOHZMOpZg=="; lit "5L2g5aW9LCDkuJbnlYw=";
    lit "QnVpbGQsIHRyYWluLCAmIGRlcGxveQpNTCBtb2RlbHMgaW4gSlM=" ].

(** A heap with the values of [txtArr] in one array, and tensors on it. *)
Definition test_heap : heap := {[ 1%positive := JString <$> txtArr ]}.
Definition test_tensor2d : Tensor := mkTensor [2; 4]%nat string_ 1%positive.
Definition test_tensor3d : Tensor := mkTensor [2; 2; 2]%nat string_ 1%positive.

(** What it is for a tensor operation [op] called on the tensor [t], whose
    values are in the array [arr] of the heap [h], to leave its input as it
    is, to return a new array and to keep no state:
    - every array of [h] is in the heap the call leaves, with the same
      contents;
    - the array of the tensor returned is not an array of [h];
    - on any heap that holds [arr] for [t], and so on the heap left by a
      first call, the call gives the same shape, dtype and values, or the
      same exception. *)
Definition respects_frame (op : Tensor → M Tensor) (t : Tensor) (h : heap)
    (arr : list jsval) : Prop :=
  (∀ l, l ∈ dom h → outcome_heap (op t h) !! l = h !! l) ∧
  (∀ t' h', op t h = Done t' h' → (dataId t' ∉ dom h) ∧ dataId t' ∈ dom h') ∧
  (∀ h2 : heap, h2 !! dataId t = Some arr → observed (op t h2) = observed (op t h)) ∧
  observed (op t (outcome_heap (op t h))) = observed (op t h).

(** ** What [decodeBase64_] rejects *)

(** The longest prefix of [s] made of characters of the Base64 table. *)
Fixpoint alphabet_prefix (s : jsstring) : jsstring :=
  match s with
  | c :: t =>
      if bool_decide (is_Some (base64_index c)) then c :: alphabet_prefix t else []
  | [] => []
  end.

(** The strings that are Base64 for [atob] (forgiving-base64 of the HTML
    standard), by their shape: with the ASCII white space left out, a run
    of characters of the table whose length is not 1 modulo 4, or such a
    run of length 2 modulo 4 followed by [==], or of length 3 modulo 4
    followed by [=]. *)
Definition forgiving_base64 (s : jsstring) : bool :=
  let data := filter (λ u, negb (is_ascii_whitespace u) = true) s in
  let body := alphabet_prefix data in
  let padding := drop (length body) data in
  match (length body mod 4)%nat with
  | 0%nat => bool_decide (padding = [])
  | 1%nat => false
  | 2%nat => bool_decide (padding = [] ∨ padding = [EQ; EQ])
  | _ => bool_decide (padding = [] ∨ padding = [EQ])
  end.

(** Four bytes that the last alternative of [multibyteSeq] matches and that
    stand for a number above 0x10FFFF: 0xF4 followed by 0x90 to 0xBF, or
    0xF5 to 0xF7, and the continuation bytes. *)
Definition out_of_range4 (b0 b1 b2 b3 : Z) : bool :=
  in_class (0xF0, 0xF7) b0 && in_class (0x80, 0xBF) b1 &&
  in_class (0x80, 0xBF) b2 && in_class (0x80, 0xBF) b3 &&
  (0x10FFFF <? (b0 - 0xF0) * 262144 + (b1 - 0x80) * 4096 + (b2 - 0x80) * 64 +
               (b3 - 0x80)).

(** [bytes] holds four such bytes in a row. *)
Fixpoint has_out_of_range (bytes : list Z) : bool :=
  match bytes with
  | b0 :: rest =>
      match rest with
      | b1 :: b2 :: b3 :: _ => out_of_range4 b0 b1 b2 b3
      | _ => false
      end || has_out_of_range rest
  | [] => false
  end.

Ltac div_lia := zify; Z.div_mod_to_equations; lia.

Ltac resolve_tests :=
  repeat match goal with
  | |- context [?a <=? ?b] =>
      first [ rewrite (proj2 (Z.leb_le a b)) by div_lia
            | rewrite (proj2 (Z.leb_gt a b)) by div_lia ]
  | |- context [?a =? ?b] =>
      first [ rewrite (proj2 (Z.eqb_eq a b)) by div_lia
            | rewrite (proj2 (Z.eqb_neq a b)) by div_lia ]
  end; cbn [andb orb negb].


(** * Definitions of the further properties *)

(** [String.prototype.toWellFormed]: the string with every unpaired
    surrogate replaced by U+FFFD. *)
Fixpoint to_well_formed (s : jsstring) : jsstring :=
  match s with
  | [] => []
  | u :: t =>
      match t with
      | v :: t' =>
          if is_lead_surrogate u && is_trail_surrogate v
          then u :: v :: to_well_formed t'
          else (if is_lead_surrogate u || is_trail_surrogate u then 0xFFFD else u)
               :: to_well_formed t
      | [] => [if is_lead_surrogate u || is_trail_surrogate u then 0xFFFD else u]
      end
  end.

(** The characters [A-Z a-z 0-9 - _] of the URL-safe alphabet. *)
Definition url_safe_char (c : Z) : bool :=
  ((65 <=? c) && (c <=? 90)) || ((97 <=? c) && (c <=? 122)) ||
  ((48 <=? c) && (c <=? 57)) || (c =? 45) || (c =? 95).

(** What [Array.from] yields of a string: one code unit, or a lead
    surrogate and a trail surrogate. *)
Definition is_char (char : jsstring) : Prop :=
  (∃ u, char = [u] ∧ code_unit u) ∨
  (∃ u v, char = [u; v] ∧ is_lead_surrogate u = true ∧ is_trail_surrogate v = true).

(** A string of one, two and four UTF-8 bytes per code point, for the
    examples. *)
Definition sample_string : jsstring := [0x41; 0x3B2; 0xD834; 0xDF06].
(** * Proofs *)

Lemma all_below_spec (n : nat) (P : Z → bool) :
  all_below n P = true → ∀ x, 0 ≤ x < Z.of_nat n → P x = true.
Proof.
  induction n as [|k IH]; simpl; intros H x Hx; [lia|].
  apply andb_prop in H as [Hk Hrest].
  destruct (decide (x = Z.of_nat k)) as [->|Hne]; [done|].
  apply IH; [done|lia].
Qed.

(** ** The 32-bit operators on small numbers *)

Lemma ToInt32_small x : 0 ≤ x < 2 ^ 31 → ToInt32 x = x.
Proof.
  intros Hx. unfold ToInt32. rewrite Z.mod_small by lia.
  destruct (Z.ltb_spec x (2 ^ 31)); lia.
Qed.

Lemma ToUint32_small x : 0 ≤ x < 2 ^ 32 → ToUint32 x = x.
Proof. intros Hx. unfold ToUint32. by rewrite Z.mod_small. Qed.

Lemma ToUint16_small x : 0 ≤ x < 65536 → ToUint16 x = x.
Proof. intros Hx. unfold ToUint16. by rewrite Z.mod_small. Qed.

Lemma js_ushr_small a n : 0 ≤ a < 2 ^ 32 → 0 ≤ n < 32 → a >>> n = a `div` 2 ^ n.
Proof.
  intros Ha Hn. unfold js_ushr.
  rewrite (ToUint32_small a), (ToUint32_small n) by lia.
  rewrite (Z.mod_small n) by lia. apply Z.shiftr_div_pow2; lia.
Qed.

(** [x & (2^k - 1)] keeps the [k] low bits. *)
Lemma js_and_ones a k :
  0 ≤ a < 2 ^ 31 → 0 ≤ k < 31 → a .& Z.ones k = a `mod` 2 ^ k.
Proof.
  intros Ha Hk. unfold js_and.
  assert (0 ≤ Z.ones k < 2 ^ 31) as Hones.
  { rewrite Z.ones_equiv.
    assert (0 < 2 ^ k) by (apply Z.pow_pos_nonneg; lia).
    assert (2 ^ k < 2 ^ 31) by (apply Z.pow_lt_mono_r; lia). lia. }
  rewrite (ToInt32_small a), (ToInt32_small (Z.ones k)) by lia.
  rewrite Z.land_ones by lia.
  apply ToInt32_small.
  pose proof (Z.mod_pos_bound a (2 ^ k)) as Hm.
  assert (2 ^ k < 2 ^ 31) by (apply Z.pow_lt_mono_r; lia). lia.
Qed.

Lemma js_and_ones_l a k :
  0 ≤ a < 2 ^ 31 → 0 ≤ k < 31 → Z.ones k .& a = a `mod` 2 ^ k.
Proof.
  intros Ha Hk. rewrite <- js_and_ones by done.
  unfold js_and. by rewrite Z.land_comm.
Qed.

Lemma lor_shiftl_add x y k :
  0 ≤ k → 0 ≤ y < 2 ^ k → Z.lor (x ≪ k) y = x * 2 ^ k + y.
Proof.
  intros Hk Hy. rewrite <- Z.shiftl_mul_pow2 by done.
  symmetry. apply Z.add_nocarry_lor.
  apply Z.bits_inj'. intros n Hn.
  rewrite Z.land_spec, Z.bits_0.
  destruct (Z.lt_ge_cases n k) as [Hlt|Hge].
  - rewrite Z.shiftl_spec_low by done. done.
  - destruct (decide (y = 0)) as [->|Hy0]; [by rewrite Z.bits_0, andb_false_r|].
    rewrite (Z.bits_above_log2 y n), andb_false_r; [done|lia|].
    apply Z.log2_lt_pow2; [lia|].
    assert (2 ^ k ≤ 2 ^ n) by (apply Z.pow_le_mono_r; lia). lia.
Qed.

(** [hi | lo] where [hi] is a multiple of [2^k] and [lo] is below [2^k]. *)
Lemma js_or_disjoint hi lo k :
  0 ≤ k → 0 ≤ hi → 0 ≤ lo < 2 ^ k → hi `mod` 2 ^ k = 0 → hi + lo < 2 ^ 31 →
  hi .| lo = hi + lo.
Proof.
  intros Hk Hhi Hlo Hmod Hsum. unfold js_or.
  rewrite (ToInt32_small hi), (ToInt32_small lo) by lia.
  assert (hi = (hi `div` 2 ^ k) * 2 ^ k) as Hdiv.
  { pose proof (Z.div_mod hi (2 ^ k)). lia. }
  rewrite Hdiv at 1. rewrite <- Z.shiftl_mul_pow2 by done.
  rewrite lor_shiftl_add by done. rewrite <- Hdiv.
  apply ToInt32_small; lia.
Qed.

Lemma js_shl_small a n :
  0 ≤ a → 0 ≤ n < 32 → a * 2 ^ n < 2 ^ 31 → a <<< n = a * 2 ^ n.
Proof.
  intros Ha Hn Hlt. unfold js_shl.
  assert (0 < 2 ^ n) by (apply Z.pow_pos_nonneg; lia).
  assert (a < 2 ^ 31) by nia.
  rewrite (ToInt32_small a), (ToUint32_small n) by lia.
  rewrite (Z.mod_small n) by lia.
  rewrite Z.shiftl_mul_pow2 by lia. apply ToInt32_small.
  split; [|done]. apply Z.mul_nonneg_nonneg; [done|]. apply Z.pow_nonneg; lia.
Qed.

Lemma list_ind3 {A} (P : list A → Prop) :
  P [] → (∀ a, P [a]) → (∀ a b, P [a; b]) →
  (∀ a b c l, P l → P (a :: b :: c :: l)) → ∀ l, P l.
Proof.
  intros H0 H1 H2 H3.
  fix IH 1. intros [|a [|b [|c l]]]; [done..|]. apply H3, IH.
Qed.

Lemma replace_char_map c d s :
  replace_char c [d] s = (λ u, if u =? c then d else u) <$> s.
Proof.
  unfold replace_char. induction s as [|u s IH]; [done|].
  cbn [mbind list_bind fmap list_fmap] in *. rewrite IH. by destruct (u =? c).
Qed.

Lemma replace_char_nil c s : replace_char c [] s = filter (λ u, u ≠ c) s.
Proof.
  unfold replace_char. induction s as [|u s IH]; [done|].
  cbn [mbind list_bind] in *. rewrite IH.
  rewrite filter_cons.
  destruct (Z.eqb_spec u c) as [->|Hne]; destruct (decide _); done.
Qed.

Lemma land_ones_3 a : Z.land a 3 = a `mod` 4.
Proof. apply (Z.land_ones a 2). lia. Qed.
Lemma land_ones_15 a : Z.land a 15 = a `mod` 16.
Proof. apply (Z.land_ones a 4). lia. Qed.
Lemma land_ones_63 a : Z.land a 63 = a `mod` 64.
Proof. apply (Z.land_ones a 6). lia. Qed.
Lemma land_ones_255 a : Z.land a 255 = a `mod` 256.
Proof. apply (Z.land_ones a 8). lia. Qed.

(** ** Base64 *)

Lemma is_byte_spec u : is_byte u = true ↔ byte u.
Proof. unfold is_byte, byte. rewrite andb_true_iff, Z.leb_le, Z.leb_le. lia. Qed.

Lemma forallb_intro {A} (f : A → bool) (l : list A) :
  Forall (λ x, f x = true) l → forallb f l = true.
Proof. induction 1 as [|u l Hu _ IH]; [done|]. simpl. by rewrite Hu, IH. Qed.

Lemma forallb_is_byte bytes : Forall byte bytes → forallb is_byte bytes = true.
Proof.
  intros H. apply forallb_intro. eapply Forall_impl; [exact H|].
  intros u. apply is_byte_spec.
Qed.

Lemma base64_encode_split bytes :
  base64_encode bytes = base64_body bytes ++ base64_padding bytes.
Proof.
  induction bytes as [| | |a b c l IH] using list_ind3; [done..|].
  cbn [base64_encode base64_body base64_padding]. rewrite IH.
  by rewrite <- app_assoc.
Qed.

Lemma base64_padding_cases bytes :
  base64_padding bytes = [] ∨ base64_padding bytes = [EQ] ∨
  base64_padding bytes = [EQ; EQ].
Proof. induction bytes using list_ind3; naive_solver. Qed.

Lemma base64_table_chars : Forall table_char base64_table.
Proof. apply (bool_decide_unpack _). by vm_compute. Qed.

Lemma base64_char_table i : 0 ≤ i < 64 → table_char (base64_char i).
Proof.
  intros Hi. unfold base64_char.
  destruct (base64_table !! Z.to_nat i) as [c|] eqn:Hc.
  - eapply Forall_lookup_1; [apply base64_table_chars|done].
  - apply lookup_ge_None in Hc. change (length base64_table) with 64%nat in Hc. lia.
Qed.

Lemma base64_index_char i : 0 ≤ i < 64 → base64_index (base64_char i) = Some i.
Proof.
  intros Hi.
  assert (all_below 64 (λ i, bool_decide (base64_index (base64_char i) = Some i))
          = true) as H by (by vm_compute).
  apply (all_below_spec _ _ H i) in Hi. by apply bool_decide_eq_true_1 in Hi.
Qed.

(** The four sextets of three bytes, in arithmetic. *)
Lemma sextet0 a : a ≫ 2 = a `div` 4.
Proof. by rewrite Z.shiftr_div_pow2. Qed.
Lemma sextet1 a b : byte b → Z.lor (Z.land a 3 ≪ 4) (b ≫ 4) = a `mod` 4 * 16 + b `div` 16.
Proof.
  intros Hb. rewrite land_ones_3, Z.shiftr_div_pow2 by lia.
  rewrite lor_shiftl_add; [done|lia|]. unfold byte in Hb. div_lia.
Qed.
Lemma sextet1_last a : Z.land a 3 ≪ 4 = a `mod` 4 * 16.
Proof. by rewrite land_ones_3, Z.shiftl_mul_pow2. Qed.
Lemma sextet2 b c : byte c → Z.lor (Z.land b 15 ≪ 2) (c ≫ 6) = b `mod` 16 * 4 + c `div` 64.
Proof.
  intros Hb. rewrite land_ones_15, Z.shiftr_div_pow2 by lia.
  rewrite lor_shiftl_add; [done|lia|]. unfold byte in Hb. div_lia.
Qed.
Lemma sextet2_last b : Z.land b 15 ≪ 2 = b `mod` 16 * 4.
Proof. by rewrite land_ones_15, Z.shiftl_mul_pow2. Qed.

Lemma base64_body_chars bytes :
  Forall byte bytes → Forall table_char (base64_body bytes).
Proof.
  induction bytes as [|a|a b|a b c l IH] using list_ind3; intros Hb.
  - constructor.
  - apply Forall_cons in Hb as [Ha _]. unfold byte in Ha.
    cbn [base64_body]. rewrite sextet0, sextet1_last.
    repeat constructor; apply base64_char_table; div_lia.
  - apply Forall_cons in Hb as [Ha Hb]. apply Forall_cons in Hb as [Hb _].
    cbn [base64_body]. rewrite sextet0, sextet1, sextet2_last by done.
    unfold byte in *.
    repeat constructor; apply base64_char_table; div_lia.
  - apply Forall_cons in Hb as [Ha Hb]. apply Forall_cons in Hb as [Hb Hc].
    apply Forall_cons in Hc as [Hc Hl].
    cbn [base64_body]. rewrite sextet0, sextet1, sextet2, land_ones_63 by done.
    unfold byte in *.
    repeat (apply Forall_cons; split); [apply base64_char_table; div_lia..|].
    by apply IH.
Qed.

Lemma base64_lengths bytes :
  (length (base64_body bytes) `mod` 4 ≠ 1 ∧
   (length (base64_body bytes) + length (base64_padding bytes)) `mod` 4 = 0 ∧
   (length (base64_body bytes) `mod` 4 = 0 → base64_padding bytes = []))%nat.
Proof.
  induction bytes as [| | |a b c l IH] using list_ind3; [done..|].
  cbn [base64_body base64_padding length app].
  destruct IH as (IH1 & IH2 & IH3). split_and!; [div_lia..|].
  intros H. apply IH3. div_lia.
Qed.

Lemma forgiving_loop_quad s0 s1 s2 s3 rest out :
  0 ≤ s0 < 64 → 0 ≤ s1 < 64 → 0 ≤ s2 < 64 → 0 ≤ s3 < 64 →
  forgiving_loop
    (base64_char s0 :: base64_char s1 :: base64_char s2 :: base64_char s3 :: rest)
    0 O out =
  let buffer := ((s0 * 64 + s1) * 64 + s2) * 64 + s3 in
  forgiving_loop rest 0 O
    (out ++ [buffer `div` 65536; (buffer `div` 256) `mod` 256; buffer `mod` 256]).
Proof.
  intros H0 H1 H2 H3. cbn [forgiving_loop].
  rewrite !base64_index_char by done. cbn [default Nat.add Nat.eqb].
  rewrite !land_ones_255, !Z.shiftr_div_pow2, !Z.shiftl_mul_pow2 by lia.
  unfold id. by rewrite Z.mul_0_l, Z.add_0_l.
Qed.

Lemma forgiving_loop_pair s0 s1 out :
  0 ≤ s0 < 64 → 0 ≤ s1 < 64 →
  forgiving_loop [base64_char s0; base64_char s1] 0 O out =
  out ++ [(s0 * 64 + s1) `div` 16].
Proof.
  intros H0 H1. cbn [forgiving_loop].
  rewrite !base64_index_char by done. cbn [default Nat.add Nat.eqb].
  rewrite !Z.shiftr_div_pow2, !Z.shiftl_mul_pow2 by lia.
  unfold id. by rewrite Z.mul_0_l, Z.add_0_l.
Qed.

Lemma forgiving_loop_triple s0 s1 s2 out :
  0 ≤ s0 < 64 → 0 ≤ s1 < 64 → 0 ≤ s2 < 64 →
  forgiving_loop [base64_char s0; base64_char s1; base64_char s2] 0 O out =
  let buffer := ((s0 * 64 + s1) * 64 + s2) `div` 4 in
  out ++ [buffer `div` 256; buffer `mod` 256].
Proof.
  intros H0 H1 H2. cbn [forgiving_loop].
  rewrite !base64_index_char by done. cbn [default Nat.add Nat.eqb].
  rewrite !land_ones_255, !Z.shiftr_div_pow2, !Z.shiftl_mul_pow2 by lia.
  unfold id. by rewrite Z.mul_0_l, Z.add_0_l.
Qed.

(** The decoding loop of [atob] inverts the unpadded encoding. *)
Lemma forgiving_loop_body bytes :
  Forall byte bytes →
  ∀ out, forgiving_loop (base64_body bytes) 0 O out = out ++ bytes.
Proof.
  induction bytes as [|a|a b|a b c l IH] using list_ind3; intros Hb out.
  - by rewrite app_nil_r.
  - apply Forall_cons in Hb as [Ha _]. unfold byte in Ha.
    cbn [base64_body]. rewrite sextet0, sextet1_last.
    rewrite forgiving_loop_pair by div_lia.
    do 2 f_equal. div_lia.
  - apply Forall_cons in Hb as [Ha Hb]. apply Forall_cons in Hb as [Hb _].
    cbn [base64_body]. rewrite sextet0, sextet1, sextet2_last by done.
    unfold byte in *.
    rewrite forgiving_loop_triple by div_lia. cbn zeta.
    f_equal. f_equal; [|f_equal]; div_lia.
  - apply Forall_cons in Hb as [Ha Hb]. apply Forall_cons in Hb as [Hb Hc].
    apply Forall_cons in Hc as [Hc Hl].
    cbn [base64_body app]. rewrite sextet0, sextet1, sextet2, land_ones_63 by done.
    unfold byte in *.
    rewrite forgiving_loop_quad by div_lia. cbn zeta.
    rewrite IH by done. rewrite <- app_assoc. f_equal. cbn [app].
    f_equal; [|f_equal; [|f_equal]]; div_lia.
Qed.

Lemma remove_padding_app body padding :
  Forall (λ c, c ≠ EQ) body →
  padding = [] ∨ padding = [EQ] ∨ padding = [EQ; EQ] →
  remove_padding (body ++ padding) = body.
Proof.
  intros Hbody Hpad. unfold remove_padding. rewrite reverse_app.
  assert (∀ r, Forall (λ c, c ≠ EQ) r →
               match r with
               | c :: r' => (c =? EQ) = false
               | [] => True
               end) as Hhead.
  { intros [|c r'] Hr; [done|]. apply Forall_cons in Hr as [Hc _].
    by apply Z.eqb_neq. }
  pose proof (Hhead (reverse body) ltac:(by apply Forall_reverse)) as Hrev.
  destruct Hpad as [->|[->| ->]]; cbn.
  - rewrite app_nil_r. destruct (reverse body) as [|c r]; [done|].
    by rewrite Hrev.
  - destruct (reverse body) as [|c r] eqn:Heq.
    + apply (f_equal reverse) in Heq. by rewrite reverse_involutive in Heq.
    + rewrite Hrev, <- Heq. apply reverse_involutive.
  - apply reverse_involutive.
Qed.

Lemma filter_whitespace_id (s : jsstring) :
  Forall (λ c, is_ascii_whitespace c = false) s →
  filter (λ u, negb (is_ascii_whitespace u) = true) s = s.
Proof.
  induction 1 as [|c s Hc _ IH]; [done|].
  rewrite filter_cons, IH. destruct (decide _) as [|Hn]; [done|].
  by rewrite Hc in Hn.
Qed.

(** [atob] accepts the encoding of a byte sequence, with its padding or
    without it, and gives the bytes back. *)
Lemma atob_base64 bytes padding :
  Forall byte bytes →
  padding = [] ∨ padding = base64_padding bytes →
  atob (base64_body bytes ++ padding) = Ok bytes.
Proof.
  intros Hbytes Hpad.
  pose proof (base64_body_chars bytes Hbytes) as Hchars.
  pose proof (base64_lengths bytes) as (Hlen1 & Hlen0 & Hlen).
  assert (Forall (λ c, c ≠ EQ) (base64_body bytes)) as Hne.
  { eapply Forall_impl; [exact Hchars|]. by intros c (? & _). }
  unfold atob.
  rewrite filter_whitespace_id; last first.
  { apply Forall_app. split.
    - eapply Forall_impl; [exact Hchars|]. by intros c (_ & _ & _ & ? & _).
    - destruct Hpad as [-> | ->]; [done|].
      destruct (base64_padding_cases bytes) as [->|[->| ->]]; by repeat constructor. }
  cbn zeta.
  assert ((if (length (base64_body bytes ++ padding) `mod` 4 =? 0)%nat
           then remove_padding (base64_body bytes ++ padding)
           else base64_body bytes ++ padding) = base64_body bytes) as ->.
  { destruct (Nat.eqb_spec (length (base64_body bytes ++ padding) `mod` 4) 0)
      as [Hz|Hnz].
    - apply remove_padding_app; [done|].
      destruct Hpad as [-> | ->]; [by left|]. apply base64_padding_cases.
    - destruct Hpad as [-> | ->]; [by rewrite app_nil_r|].
      rewrite length_app in Hnz. lia. }
  destruct (Nat.eqb_spec (length (base64_body bytes) `mod` 4) 1) as [|_]; [done|].
  assert (forallb (λ c, bool_decide (is_Some (base64_index c))) (base64_body bytes)
          = true) as ->.
  { apply forallb_intro. eapply Forall_impl; [exact Hchars|].
    intros c (_ & _ & _ & _ & ?). by apply bool_decide_eq_true_2. }
  cbn [negb]. by rewrite forgiving_loop_body.
Qed.

(** ** The URL-safe substitutions *)

Lemma toUrlSafe_map s :
  toUrlSafe s = (λ u, if u =? 43 then 45 else if u =? 47 then 95 else u) <$> s.
Proof.
  unfold toUrlSafe. change (lit "_") with [95]. change (lit "-") with [45].
  rewrite !replace_char_map, <- list_fmap_compose.
  apply list_fmap_ext. intros _ u _. simpl.
  destruct (Z.eqb_spec u 43) as [->|]; [done|].
  by destruct (Z.eqb_spec u 47).
Qed.

Lemma fromUrlSafe_map s :
  fromUrlSafe s = (λ u, if u =? 45 then 43 else if u =? 95 then 47 else u) <$> s.
Proof.
  unfold fromUrlSafe. change (lit "/") with [47]. change (lit "+") with [43].
  rewrite !replace_char_map, <- list_fmap_compose.
  apply list_fmap_ext. intros _ u _. simpl.
  destruct (Z.eqb_spec u 45) as [->|]; [done|].
  by destruct (Z.eqb_spec u 95).
Qed.

(** A string without [-] and [_] is left as it is by [fromUrlSafe]. *)
Lemma fromUrlSafe_id s : Forall (λ c, c ≠ 45 ∧ c ≠ 95) s → fromUrlSafe s = s.
Proof.
  intros H. rewrite fromUrlSafe_map.
  induction H as [|c s [H1 H2] _ IH]; [done|].
  rewrite fmap_cons, IH.
  destruct (Z.eqb_spec c 45); [done|]. by destruct (Z.eqb_spec c 95).
Qed.

Lemma fromUrlSafe_toUrlSafe s :
  Forall (λ c, c ≠ 45 ∧ c ≠ 95) s → fromUrlSafe (toUrlSafe s) = s.
Proof.
  intros H. rewrite fromUrlSafe_map, toUrlSafe_map.
  induction H as [|c s [H1 H2] _ IH]; [done|].
  rewrite !fmap_cons, IH. f_equal.
  destruct (Z.eqb_spec c 43) as [->|]; [done|].
  destruct (Z.eqb_spec c 47) as [->|]; [done|].
  destruct (Z.eqb_spec c 45); [done|]. by destruct (Z.eqb_spec c 95).
Qed.

Lemma toUrlSafe_app s1 s2 : toUrlSafe (s1 ++ s2) = toUrlSafe s1 ++ toUrlSafe s2.
Proof. by rewrite !toUrlSafe_map, fmap_app. Qed.

Lemma toUrlSafe_length s : length (toUrlSafe s) = length s.
Proof. by rewrite toUrlSafe_map, length_fmap. Qed.

Lemma toUrlSafe_url_safe s : (43 ∉ toUrlSafe s) ∧ (47 ∉ toUrlSafe s).
Proof.
  rewrite toUrlSafe_map.
  split; intros H; apply list_elem_of_fmap in H as (u & Hu & _);
    destruct (Z.eqb_spec u 43); try done; by destruct (Z.eqb_spec u 47).
Qed.

Lemma toUrlSafe_padding s :
  s = [] ∨ s = [EQ] ∨ s = [EQ; EQ] → toUrlSafe s = s.
Proof. by intros [->|[->| ->]]. Qed.

Lemma toUrlSafe_not_EQ s :
  Forall (λ c, c ≠ EQ) s → Forall (λ c, c ≠ EQ) (toUrlSafe s).
Proof.
  intros H. rewrite toUrlSafe_map. apply Forall_fmap.
  eapply Forall_impl; [exact H|]. intros c Hc. simpl.
  destruct (Z.eqb_spec c 43); [done|]. by destruct (Z.eqb_spec c 47).
Qed.

(** Removing every [=] of a string whose [=] are all at its end. *)
Lemma remove_EQ_app body padding :
  Forall (λ c, c ≠ EQ) body →
  padding = [] ∨ padding = [EQ] ∨ padding = [EQ; EQ] →
  replace_char EQ [] (body ++ padding) = body.
Proof.
  intros Hbody Hpad. rewrite replace_char_nil, filter_app.
  assert (filter (λ u, u ≠ EQ) padding = []) as ->
    by (by destruct Hpad as [->|[->| ->]]).
  rewrite app_nil_r.
  induction Hbody as [|c s Hc _ IH]; [done|].
  rewrite filter_cons, IH. by destruct (decide _).
Qed.

Lemma base64_body_not_EQ bytes :
  Forall byte bytes → Forall (λ c, c ≠ EQ) (base64_body bytes).
Proof.
  intros H. eapply Forall_impl; [by apply base64_body_chars|].
  by intros c (? & _).
Qed.

Lemma base64_encode_not_url bytes :
  Forall byte bytes → Forall (λ c, c ≠ 45 ∧ c ≠ 95) (base64_encode bytes).
Proof.
  intros H. rewrite base64_encode_split. apply Forall_app. split.
  - eapply Forall_impl; [by apply base64_body_chars|].
    by intros c (_ & ? & ? & _).
  - destruct (base64_padding_cases bytes) as [->|[->| ->]]; by repeat constructor.
Qed.

Lemma base64_body_not_url bytes :
  Forall byte bytes → Forall (λ c, c ≠ 45 ∧ c ≠ 95) (base64_body bytes).
Proof.
  intros H. eapply Forall_impl; [by apply base64_body_chars|].
  by intros c (_ & ? & ? & _).
Qed.

(** ** [Buffer.from(str, 'base64')] inverts the encoding *)

Lemma index_of_elem c l : is_Some (index_of c l) → c ∈ l.
Proof.
  induction l as [|x l IH]; cbn [index_of]; [by intros [? ?]|].
  destruct (Z.eqb_spec x c) as [->|_]; [intros _; by left|].
  intros [n Hn]. right. apply IH. destruct (index_of c l); [by eexists|done].
Qed.

(** The characters of the table are their own low byte. *)
Lemma table_char_low_byte c : table_char c → Z.land c 0xFF = c.
Proof.
  intros (_ & _ & _ & _ & Hidx). unfold base64_index in Hidx.
  apply fmap_is_Some, index_of_elem in Hidx.
  assert (Forall (λ c, Z.land c 0xFF = c) base64_table) as Hall
    by (apply (bool_decide_unpack _); by vm_compute).
  by rewrite Forall_forall in Hall; apply Hall.
Qed.

Lemma unbase64_char i : 0 ≤ i < 64 → unbase64 (base64_char i) = Some i.
Proof.
  intros Hi. pose proof (base64_char_table i Hi) as (_ & H45 & H95 & _).
  unfold unbase64. rewrite table_char_low_byte by (by apply base64_char_table).
  cbn zeta.
  destruct (Z.eqb_spec (base64_char i) 45); [done|].
  destruct (Z.eqb_spec (base64_char i) 95); [done|].
  by apply base64_index_char.
Qed.

Lemma until_padding_app body padding :
  Forall table_char body →
  padding = [] ∨ padding = [EQ] ∨ padding = [EQ; EQ] →
  until_padding (body ++ padding) = body.
Proof.
  intros Hbody Hpad.
  induction Hbody as [|c s Hc _ IH].
  - by destruct Hpad as [->|[->| ->]].
  - cbn [app until_padding]. rewrite IH, table_char_low_byte by done.
    destruct Hc as (Hc & _). by destruct (Z.eqb_spec c EQ).
Qed.

Lemma sextet_bits s :
  0 ≤ s < 64 →
  Z.land s 0x3F = s ∧ Z.land s 0x30 ≫ 4 = s `div` 16 ∧
  Z.land s 0x0F = s `mod` 16 ∧ Z.land s 0x3C ≫ 2 = s `div` 4 ∧
  Z.land s 0x03 = s `mod` 4.
Proof.
  intros Hs.
  assert (all_below 64 (λ s, bool_decide
    (Z.land s 0x3F = s ∧ Z.land s 0x30 ≫ 4 = s `div` 16 ∧
     Z.land s 0x0F = s `mod` 16 ∧ Z.land s 0x3C ≫ 2 = s `div` 4 ∧
     Z.land s 0x03 = s `mod` 4)) = true) as H by (by vm_compute).
  apply (all_below_spec _ _ H s) in Hs. by apply bool_decide_eq_true_1 in Hs.
Qed.

Lemma decode_group_bytes s0 s1 s2 s3 :
  0 ≤ s0 < 64 → 0 ≤ s1 < 64 → 0 ≤ s2 < 64 → 0 ≤ s3 < 64 →
  Z.lor (Z.land s0 0x3F ≪ 2) (Z.land s1 0x30 ≫ 4) = s0 * 4 + s1 `div` 16 ∧
  Z.lor (Z.land s1 0x0F ≪ 4) (Z.land s2 0x3C ≫ 2) = s1 `mod` 16 * 16 + s2 `div` 4 ∧
  Z.lor (Z.land s2 0x03 ≪ 6) (Z.land s3 0x3F) = s2 `mod` 4 * 64 + s3.
Proof.
  intros H0 H1 H2 H3.
  destruct (sextet_bits s0 H0) as (-> & _).
  destruct (sextet_bits s1 H1) as (_ & -> & -> & _).
  destruct (sextet_bits s2 H2) as (_ & _ & _ & -> & ->).
  destruct (sextet_bits s3 H3) as (-> & _).
  rewrite !lor_shiftl_add by div_lia. done.
Qed.

Lemma Buffer_from_base64_body bytes :
  Forall byte bytes →
  base64_decode_groups (omap unbase64 (base64_body bytes)) = bytes.
Proof.
  induction bytes as [|a|a b|a b c l IH] using list_ind3; intros Hb.
  - done.
  - apply Forall_cons in Hb as [Ha _]. unfold byte in Ha.
    cbn [base64_body]. rewrite sextet0, sextet1_last.
    cbn [omap list_omap]. rewrite !unbase64_char by div_lia.
    cbn [base64_decode_groups].
    edestruct (decode_group_bytes (a `div` 4) (a `mod` 4 * 16) 0 0) as (-> & _);
      [div_lia..|].
    f_equal. div_lia.
  - apply Forall_cons in Hb as [Ha Hb]. apply Forall_cons in Hb as [Hb _].
    cbn [base64_body]. rewrite sextet0, sextet1, sextet2_last by done.
    unfold byte in *.
    cbn [omap list_omap]. rewrite !unbase64_char by div_lia.
    cbn [base64_decode_groups].
    edestruct (decode_group_bytes (a `div` 4) (a `mod` 4 * 16 + b `div` 16)
                 (b `mod` 16 * 4) 0) as (-> & -> & _); [div_lia..|].
    f_equal; [|f_equal]; div_lia.
  - apply Forall_cons in Hb as [Ha Hb]. apply Forall_cons in Hb as [Hb Hc].
    apply Forall_cons in Hc as [Hc Hl].
    cbn [base64_body app]. rewrite sextet0, sextet1, sextet2, land_ones_63 by done.
    unfold byte in *.
    cbn [omap list_omap]. rewrite !unbase64_char by div_lia.
    cbn [base64_decode_groups].
    edestruct (decode_group_bytes (a `div` 4) (a `mod` 4 * 16 + b `div` 16)
                 (b `mod` 16 * 4 + c `div` 64) (c `mod` 64)) as (-> & -> & ->);
      [div_lia..|].
    rewrite IH by done. cbn [app].
    f_equal; [|f_equal; [|f_equal]]; div_lia.
Qed.

Lemma Buffer_from_base64_encode bytes padding :
  Forall byte bytes →
  padding = [] ∨ padding = base64_padding bytes →
  Buffer_from_base64 (base64_body bytes ++ padding) = bytes.
Proof.
  intros Hb Hpad. unfold Buffer_from_base64.
  rewrite until_padding_app.
  - by apply Buffer_from_base64_body.
  - by apply base64_body_chars.
  - destruct Hpad as [-> | ->]; [by left|]. apply base64_padding_cases.
Qed.

(** ** The manual UTF-8 packing of [utf16ToUtf8Multibyte] *)

Lemma continuation_byte x :
  0 ≤ x < 2 ^ 31 → fromCharCode (0x80 .| (x .& 0x3f)) = [0x80 + x `mod` 64].
Proof.
  intros Hx. change 0x3f with (Z.ones 6). rewrite js_and_ones by lia.
  change (2 ^ 6) with 64.
  rewrite (js_or_disjoint _ _ 7) by div_lia.
  unfold fromCharCode. rewrite ToUint16_small by div_lia. done.
Qed.

Lemma continuation_byte_shr cp k :
  0 ≤ cp < 2 ^ 31 → 0 ≤ k < 32 →
  fromCharCode (0x80 .| ((cp >>> k) .& 0x3f)) = [0x80 + (cp `div` 2 ^ k) `mod` 64].
Proof.
  intros Hcp Hk. rewrite js_ushr_small by lia.
  apply continuation_byte.
  assert (0 < 2 ^ k) by (apply Z.pow_pos_nonneg; lia).
  split; [apply Z.div_pos; lia|].
  apply Z.div_lt_upper_bound; nia.
Qed.

Lemma lead_byte2 cp :
  0 ≤ cp < 0x800 → fromCharCode (0xc0 .| (cp >>> 6)) = [0xC0 + cp `div` 64].
Proof.
  intros Hcp. rewrite js_ushr_small by lia. change (2 ^ 6) with 64.
  rewrite (js_or_disjoint _ _ 6) by div_lia.
  unfold fromCharCode. rewrite ToUint16_small by div_lia. done.
Qed.

Lemma lead_byte3 cp :
  0 ≤ cp < 0x10000 →
  fromCharCode (0xe0 .| ((cp >>> 12) .& 0x0f)) = [0xE0 + cp `div` 4096].
Proof.
  intros Hcp. rewrite js_ushr_small by lia. change (2 ^ 12) with 4096.
  change 0x0f with (Z.ones 4). rewrite js_and_ones by div_lia.
  change (2 ^ 4) with 16.
  rewrite (js_or_disjoint _ _ 5) by div_lia.
  unfold fromCharCode. rewrite ToUint16_small by div_lia.
  f_equal. div_lia.
Qed.

Lemma lead_byte4 cp :
  0 ≤ cp < 0x200000 →
  fromCharCode (0xf0 .| ((cp >>> 18) .& 0x07)) = [0xF0 + cp `div` 262144].
Proof.
  intros Hcp. rewrite js_ushr_small by lia. change (2 ^ 18) with 262144.
  change 0x07 with (Z.ones 3). rewrite js_and_ones by div_lia.
  change (2 ^ 3) with 8.
  rewrite (js_or_disjoint _ _ 4) by div_lia.
  unfold fromCharCode. rewrite ToUint16_small by div_lia.
  f_equal. div_lia.
Qed.

Lemma is_lead_surrogate_spec u : is_lead_surrogate u = true ↔ 0xD800 ≤ u ≤ 0xDBFF.
Proof. unfold is_lead_surrogate. rewrite andb_true_iff, !Z.leb_le. done. Qed.
Lemma is_trail_surrogate_spec u : is_trail_surrogate u = true ↔ 0xDC00 ≤ u ≤ 0xDFFF.
Proof. unfold is_trail_surrogate. rewrite andb_true_iff, !Z.leb_le. done. Qed.

(** On a string of one code unit. *)
Lemma utf16ToUtf8Multibyte_unit u :
  code_unit u → utf16ToUtf8Multibyte [u] = utf8_code_point u.
Proof.
  intros Hu. unfold code_unit in Hu. unfold utf16ToUtf8Multibyte, utf8_code_point.
  assert (codePointAt0 [u] = Some u) as ->.
  { unfold codePointAt0. by destruct (is_lead_surrogate u). }
  cbn [js_lt js_int default from_option id].
  destruct (Z.ltb_spec u 0x80); [done|].
  destruct (Z.ltb_spec u 0x800).
  { by rewrite lead_byte2, continuation_byte by lia. }
  destruct (Z.ltb_spec u 0x10000); [|lia].
  rewrite lead_byte3, continuation_byte_shr, continuation_byte by lia. done.
Qed.

(** On a surrogate pair. *)
Lemma utf16ToUtf8Multibyte_pair u v :
  is_lead_surrogate u = true → is_trail_surrogate v = true →
  utf16ToUtf8Multibyte [u; v] =
  utf8_code_point ((u - 0xD800) * 0x400 + (v - 0xDC00) + 0x10000).
Proof.
  intros Hu Hv. unfold utf16ToUtf8Multibyte, utf8_code_point.
  unfold codePointAt0. rewrite Hu, Hv.
  apply is_lead_surrogate_spec in Hu. apply is_trail_surrogate_spec in Hv.
  set (cp := (u - 0xD800) * 0x400 + (v - 0xDC00) + 0x10000).
  assert (0x10000 ≤ cp < 0x110000) as Hcp by (unfold cp; lia).
  cbn [js_lt js_int default from_option id].
  destruct (Z.ltb_spec cp 0x80); [lia|].
  destruct (Z.ltb_spec cp 0x800); [lia|].
  destruct (Z.ltb_spec cp 0x10000); [lia|].
  rewrite lead_byte4, !continuation_byte_shr, continuation_byte by lia. done.
Qed.

(** Induction on a string along its code points. *)
Lemma code_point_ind (P : jsstring → Prop) :
  P [] →
  (∀ u t, (∀ v t', t = v :: t' →
             is_lead_surrogate u && is_trail_surrogate v = false) →
          P t → P (u :: t)) →
  (∀ u v t, is_lead_surrogate u = true → is_trail_surrogate v = true →
            P t → P (u :: v :: t)) →
  ∀ s, P s.
Proof.
  intros Hnil Hunit Hpair s.
  assert (∀ n s, (length s ≤ n)%nat → P s) as H; [|by apply (H (length s))].
  clear s. induction n as [|n IH]; intros [|u [|v t]] Hlen; simpl in Hlen;
    try done; try lia.
  - apply Hunit; [done|exact Hnil].
  - destruct (is_lead_surrogate u && is_trail_surrogate v) eqn:Hp.
    + apply andb_prop in Hp as [Hu Hv]. apply Hpair; [done..|apply IH; lia].
    + apply Hunit; [|apply IH; simpl; lia]. intros v' t' [= <- <-]. done.
Qed.

Lemma Array_from_unit u t :
  (∀ v t', t = v :: t' → is_lead_surrogate u && is_trail_surrogate v = false) →
  Array_from (u :: t) = [u] :: Array_from t ∧
  code_points (u :: t) = u :: code_points t.
Proof.
  intros H. destruct t as [|v t']; [done|].
  cbn [Array_from code_points]. by rewrite (H v t' eq_refl).
Qed.

Lemma Array_from_pair u v t :
  is_lead_surrogate u = true → is_trail_surrogate v = true →
  Array_from (u :: v :: t) = [u; v] :: Array_from t ∧
  code_points (u :: v :: t) =
    ((u - 0xD800) * 0x400 + (v - 0xDC00) + 0x10000) :: code_points t.
Proof. intros Hu Hv. cbn [Array_from code_points]. by rewrite Hu, Hv. Qed.

Lemma mjoin_cons {A} (x : list A) (l : list (list A)) :
  mjoin (x :: l) = x ++ mjoin l.
Proof. done. Qed.

(** The manual conversion of the browser path gives the UTF-8 bytes of the
    code points of the string. *)
Lemma manual_utf8 s :
  is_jsstring s →
  mjoin (utf16ToUtf8Multibyte <$> Array_from s) = utf8_bytes s.
Proof.
  unfold utf8_bytes.
  induction s as [|u t Hu IH|u v t Hu Hv IH] using code_point_ind; intros Hs.
  - done.
  - apply Forall_cons in Hs as [Hcu Ht].
    destruct (Array_from_unit u t Hu) as [-> ->].
    rewrite !fmap_cons, !mjoin_cons, IH by done.
    by rewrite utf16ToUtf8Multibyte_unit.
  - apply Forall_cons in Hs as [_ Ht]. apply Forall_cons in Ht as [_ Ht].
    destruct (Array_from_pair u v t Hu Hv) as [-> ->].
    rewrite !fmap_cons, !mjoin_cons, IH by done.
    by rewrite utf16ToUtf8Multibyte_pair.
Qed.

(** ** Code points and their UTF-8 bytes *)

Lemma code_points_range s : is_jsstring s → Forall is_code_point (code_points s).
Proof.
  induction s as [|u t Hu IH|u v t Hu Hv IH] using code_point_ind; intros Hs.
  - constructor.
  - apply Forall_cons in Hs as [Hcu Ht].
    destruct (Array_from_unit u t Hu) as [_ ->].
    constructor; [|by apply IH]. unfold code_unit, is_code_point in *. lia.
  - apply Forall_cons in Hs as [_ Ht]. apply Forall_cons in Ht as [_ Ht].
    destruct (Array_from_pair u v t Hu Hv) as [_ ->].
    apply is_lead_surrogate_spec in Hu. apply is_trail_surrogate_spec in Hv.
    constructor; [|by apply IH]. unfold is_code_point. lia.
Qed.

Lemma utf8_code_point_bytes cp : is_code_point cp → Forall byte (utf8_code_point cp).
Proof.
  unfold is_code_point, utf8_code_point, byte. intros Hcp.
  destruct (Z.ltb_spec cp 0x80); [repeat constructor; lia|].
  destruct (Z.ltb_spec cp 0x800); [repeat constructor; div_lia|].
  destruct (Z.ltb_spec cp 0x10000); repeat constructor; div_lia.
Qed.

Lemma utf8_bytes_bytes s : is_jsstring s → Forall byte (utf8_bytes s).
Proof.
  intros Hs. unfold utf8_bytes.
  induction (code_points_range s Hs) as [|cp cps Hcp _ IH]; [constructor|].
  rewrite fmap_cons, mjoin_cons. apply Forall_app.
  split; [by apply utf8_code_point_bytes|done].
Qed.

(** ** [Buffer.from(str)] on a well-formed string *)

Lemma well_formed_ind (P : jsstring → Prop) :
  P [] →
  (∀ u t, code_unit u → is_lead_surrogate u = false →
          is_trail_surrogate u = false → well_formed t → P t → P (u :: t)) →
  (∀ u v t, is_lead_surrogate u = true → is_trail_surrogate v = true →
            well_formed t → P t → P (u :: v :: t)) →
  ∀ s, well_formed s → P s.
Proof.
  intros Hnil Hunit Hpair s.
  assert (∀ n s, (length s ≤ n)%nat → well_formed s → P s) as H;
    [|by apply (H (length s))].
  clear s. unfold well_formed.
  induction n as [|n IH]; intros [|u t] Hlen Hwf; simpl in Hlen;
    try done; try lia.
  cbn [well_formedb] in Hwf.
  destruct (is_lead_surrogate u) eqn:Hu.
  - destruct t as [|v t]; [done|]. apply andb_prop in Hwf as [Hv Hwf].
    simpl in Hlen. apply Hpair; [done..|apply IH; [lia|done]].
  - apply andb_prop in Hwf as [Hwf Ht]. apply andb_prop in Hwf as [Hcu Htr].
    apply negb_true_iff in Htr.
    apply Hunit; [|done..|apply IH; [lia|done]].
    unfold code_unitb in Hcu. apply andb_prop in Hcu as [H1 H2].
    apply Z.leb_le in H1. apply Z.ltb_lt in H2. done.
Qed.

Lemma well_formed_is_jsstring s : well_formed s → is_jsstring s.
Proof.
  induction 1 as [|u t Hcu _ _ _ IH|u v t Hu Hv _ IH] using well_formed_ind.
  - constructor.
  - by constructor.
  - apply is_lead_surrogate_spec in Hu. apply is_trail_surrogate_spec in Hv.
    repeat constructor; try done; unfold code_unit; lia.
Qed.

(** A unit that is not a lead surrogate is a code point of its own. *)
Lemma code_points_cons_unit u t :
  is_lead_surrogate u = false → code_points (u :: t) = u :: code_points t.
Proof. intros Hu. apply Array_from_unit. intros v t' _. by rewrite Hu. Qed.

Lemma Buffer_from_utf8 s : well_formed s → Buffer_from s = utf8_bytes s.
Proof.
  unfold utf8_bytes.
  induction 1 as [|u t Hcu Hu Hv _ IH|u v t Hu Hv _ IH] using well_formed_ind.
  - done.
  - rewrite code_points_cons_unit, fmap_cons, mjoin_cons, <- IH by done.
    cbn [Buffer_from]. unfold utf8_code_point. rewrite Hu, Hv.
    unfold code_unit in Hcu.
    destruct (Z.ltb_spec u 0x80); [done|].
    destruct (Z.ltb_spec u 0x800); [done|].
    destruct (Z.ltb_spec u 0x10000); [done|lia].
  - destruct (Array_from_pair u v t Hu Hv) as [_ ->].
    rewrite fmap_cons, mjoin_cons, <- IH.
    cbn [Buffer_from]. unfold utf8_code_point. rewrite Hu, Hv.
    apply is_lead_surrogate_spec in Hu. apply is_trail_surrogate_spec in Hv.
    set (cp := (u - 0xD800) * 0x400 + (v - 0xDC00) + 0x10000).
    assert (0x10000 ≤ cp) by (unfold cp; lia).
    destruct (Z.ltb_spec u 0x80); [lia|].
    destruct (Z.ltb_spec u 0x800); [lia|].
    destruct (Z.ltb_spec cp 0x80); [lia|].
    destruct (Z.ltb_spec cp 0x800); [lia|].
    destruct (Z.ltb_spec cp 0x10000); [lia|done].
Qed.

(** ** The global replace with a callback *)

Section replace.
  Context (alts : list (list (Z * Z))) (callback : jsstring → result jsstring).

Lemma replace_go_skip pre s :
  replace_go alts callback (length pre) (pre ++ s) = replace_go alts callback O s.
Proof. induction pre as [|u pre IH]; [done|]. exact IH. Qed.

Lemma replace_regex_match u m rest :
  regex_exec alts ((u :: m) ++ rest) = Some (S (length m)) →
  replace_regex alts callback ((u :: m) ++ rest) =
  r ← callback (u :: m);
  rest' ← replace_regex alts callback rest;
  Ok (r ++ rest').
Proof.
  cbn [app]. intros Hm. unfold replace_regex. cbn [replace_go]. rewrite Hm.
  cbn [take pred]. rewrite take_app_length, replace_go_skip. done.
Qed.

Lemma replace_regex_no_match u t :
  regex_exec alts (u :: t) = None →
  replace_regex alts callback (u :: t) =
  rest' ← replace_regex alts callback t; Ok (u :: rest').
Proof. intros Hm. unfold replace_regex. cbn [replace_go]. by rewrite Hm. Qed.

End replace.

(** ** [multibyteSeq] on the UTF-8 bytes of a code point *)

Lemma in_class_true lo hi u : lo ≤ u ≤ hi → in_class (lo, hi) u = true.
Proof. intros H. unfold in_class. cbn. rewrite andb_true_iff, !Z.leb_le. done. Qed.

Lemma in_class_false lo hi u : u < lo ∨ hi < u → in_class (lo, hi) u = false.
Proof.
  intros H. unfold in_class. cbn. rewrite andb_false_iff, !Z.leb_gt. done.
Qed.

Lemma multibyteSeq_none b rest :
  b < 0xC0 → regex_exec multibyteSeq (b :: rest) = None.
Proof.
  intros Hb. cbn [regex_exec multibyteSeq match_classes].
  rewrite !in_class_false by lia. done.
Qed.

Lemma multibyteSeq_two b0 b1 rest :
  0xC0 ≤ b0 ≤ 0xDF → 0x80 ≤ b1 ≤ 0xBF →
  regex_exec multibyteSeq ([b0; b1] ++ rest) = Some 2%nat.
Proof.
  intros H0 H1. cbn [regex_exec multibyteSeq match_classes app].
  rewrite !in_class_true by lia. done.
Qed.

Lemma multibyteSeq_three b0 b1 b2 rest :
  0xE0 ≤ b0 ≤ 0xEF → 0x80 ≤ b1 ≤ 0xBF → 0x80 ≤ b2 ≤ 0xBF →
  regex_exec multibyteSeq ([b0; b1; b2] ++ rest) = Some 3%nat.
Proof.
  intros H0 H1 H2. cbn [regex_exec multibyteSeq match_classes app].
  rewrite (in_class_false 0xC0) by lia.
  rewrite !in_class_true by lia. done.
Qed.

Lemma multibyteSeq_four b0 b1 b2 b3 rest :
  0xF0 ≤ b0 ≤ 0xF7 → 0x80 ≤ b1 ≤ 0xBF → 0x80 ≤ b2 ≤ 0xBF → 0x80 ≤ b3 ≤ 0xBF →
  regex_exec multibyteSeq ([b0; b1; b2; b3] ++ rest) = Some 4%nat.
Proof.
  intros H0 H1 H2 H3. cbn [regex_exec multibyteSeq match_classes app].
  rewrite (in_class_false 0xC0), (in_class_false 0xE0) by lia.
  rewrite !in_class_true by lia. done.
Qed.

(** ** [utf8MultibyteToUtf16] inverts the packing *)

Lemma low_bits k b : 0 ≤ b < 256 → 0 ≤ k < 31 → Z.ones k .& b = b `mod` 2 ^ k.
Proof. intros Hb Hk. apply js_and_ones_l; lia. Qed.

Lemma utf8MultibyteToUtf16_two cp :
  0x80 ≤ cp < 0x800 →
  utf8MultibyteToUtf16 [0xC0 + cp `div` 64; 0x80 + cp `mod` 64] = fromCodePoint cp.
Proof.
  intros Hcp. unfold utf8MultibyteToUtf16.
  change 0x1f with (Z.ones 5). change 0x3f with (Z.ones 6).
  rewrite !low_bits by div_lia. rewrite js_shl_small by div_lia.
  f_equal. div_lia.
Qed.

Lemma utf8MultibyteToUtf16_three cp :
  0x800 ≤ cp < 0x10000 →
  utf8MultibyteToUtf16
    [0xE0 + cp `div` 4096; 0x80 + (cp `div` 64) `mod` 64; 0x80 + cp `mod` 64] =
  fromCodePoint cp.
Proof.
  intros Hcp. unfold utf8MultibyteToUtf16.
  change 0x0f with (Z.ones 4). change 0x3f with (Z.ones 6).
  rewrite !low_bits by div_lia. rewrite !js_shl_small by div_lia.
  f_equal. div_lia.
Qed.

Lemma utf8MultibyteToUtf16_four cp :
  0x10000 ≤ cp < 0x110000 →
  utf8MultibyteToUtf16
    [0xF0 + cp `div` 262144; 0x80 + (cp `div` 4096) `mod` 64;
     0x80 + (cp `div` 64) `mod` 64; 0x80 + cp `mod` 64] =
  fromCodePoint cp.
Proof.
  intros Hcp. unfold utf8MultibyteToUtf16.
  change 0x07 with (Z.ones 3). change 0x3f with (Z.ones 6).
  rewrite !low_bits by div_lia. rewrite !js_shl_small by div_lia.
  f_equal. div_lia.
Qed.

Lemma fromCodePoint_units cp :
  is_code_point cp → fromCodePoint cp = Ok (code_point_units cp).
Proof.
  unfold is_code_point, fromCodePoint, code_point_units. intros Hcp.
  destruct (Z.ltb_spec cp 0); [lia|]. destruct (Z.ltb_spec 0x10FFFF cp); [lia|].
  cbn [orb]. by destruct (cp <=? 0xFFFF).
Qed.

(** One code point of the scan of [decodeBase64_]. *)
Lemma replace_multibyteSeq_code_point cp rest :
  is_code_point cp →
  replace_regex multibyteSeq utf8MultibyteToUtf16 (utf8_code_point cp ++ rest) =
  rest' ← replace_regex multibyteSeq utf8MultibyteToUtf16 rest;
  Ok (code_point_units cp ++ rest').
Proof.
  intros Hcp. pose proof Hcp as Hr. unfold is_code_point in Hr.
  unfold utf8_code_point.
  destruct (Z.ltb_spec cp 0x80).
  { cbn [app]. rewrite replace_regex_no_match by (apply multibyteSeq_none; lia).
    unfold code_point_units. destruct (Z.leb_spec cp 0xFFFF); [done|lia]. }
  destruct (Z.ltb_spec cp 0x800).
  { rewrite (replace_regex_match _ _ _ [_]) by (apply multibyteSeq_two; div_lia).
    rewrite utf8MultibyteToUtf16_two, fromCodePoint_units by done. done. }
  destruct (Z.ltb_spec cp 0x10000).
  { rewrite (replace_regex_match _ _ _ [_; _])
      by (apply multibyteSeq_three; div_lia).
    rewrite utf8MultibyteToUtf16_three, fromCodePoint_units by done. done. }
  rewrite (replace_regex_match _ _ _ [_; _; _])
    by (apply multibyteSeq_four; div_lia).
  rewrite utf8MultibyteToUtf16_four, fromCodePoint_units by (done || lia). done.
Qed.

Lemma code_points_units s :
  is_jsstring s → mjoin (code_point_units <$> code_points s) = s.
Proof.
  induction s as [|u t Hu IH|u v t Hu Hv IH] using code_point_ind; intros Hs.
  - done.
  - apply Forall_cons in Hs as [Hcu Ht].
    destruct (Array_from_unit u t Hu) as [_ ->].
    rewrite fmap_cons, mjoin_cons, IH by done.
    unfold code_point_units, code_unit in *.
    destruct (Z.leb_spec u 0xFFFF); [done|lia].
  - apply Forall_cons in Hs as [_ Ht]. apply Forall_cons in Ht as [_ Ht].
    destruct (Array_from_pair u v t Hu Hv) as [_ ->].
    rewrite fmap_cons, mjoin_cons, IH by done.
    apply is_lead_surrogate_spec in Hu. apply is_trail_surrogate_spec in Hv.
    unfold code_point_units.
    destruct (Z.leb_spec ((u - 0xD800) * 0x400 + (v - 0xDC00) + 0x10000) 0xFFFF);
      [lia|].
    cbn [app]. f_equal; [|f_equal]; div_lia.
Qed.

(** The scan of [decodeBase64_] gives back a string from its UTF-8 bytes. *)
Lemma replace_multibyteSeq_utf8 s :
  is_jsstring s →
  replace_regex multibyteSeq utf8MultibyteToUtf16 (utf8_bytes s) = Ok s.
Proof.
  intros Hs. rewrite <- (code_points_units s Hs) at 2. unfold utf8_bytes.
  induction (code_points_range s Hs) as [|cp cps Hcp _ IH]; [done|].
  rewrite !fmap_cons, !mjoin_cons.
  rewrite replace_multibyteSeq_code_point, IH by done. done.
Qed.

(** ** [buf.toString()] on the UTF-8 bytes of a well-formed string *)

Lemma land_ones_7 a : Z.land a 7 = a `mod` 8.
Proof. apply (Z.land_ones a 3). lia. Qed.
Lemma land_ones_31 a : Z.land a 31 = a `mod` 32.
Proof. apply (Z.land_ones a 5). lia. Qed.

Lemma utf8_decode_ascii b rest cp lower upper :
  0 ≤ b ≤ 0x7F →
  utf8_decode (b :: rest) cp O lower upper = b :: utf8_decode rest 0 O 0x80 0xBF.
Proof. intros Hb. cbn [utf8_decode]. by resolve_tests. Qed.

Lemma utf8_decode_lead2 b rest cp lower upper :
  0xC2 ≤ b ≤ 0xDF →
  utf8_decode (b :: rest) cp O lower upper =
  utf8_decode rest (b `mod` 32) 1 0x80 0xBF.
Proof.
  intros Hb. cbn [utf8_decode]. resolve_tests.
  by rewrite land_ones_31.
Qed.

Lemma utf8_decode_lead3 b rest cp lower upper :
  0xE0 ≤ b ≤ 0xEF →
  utf8_decode (b :: rest) cp O lower upper =
  utf8_decode rest (b `mod` 16) 2
    (if b =? 0xE0 then 0xA0 else 0x80) (if b =? 0xED then 0x9F else 0xBF).
Proof.
  intros Hb. cbn [utf8_decode].
  rewrite (proj2 (Z.leb_le 0 b)), (proj2 (Z.leb_gt b 0x7F)),
    (proj2 (Z.leb_le 0xC2 b)), (proj2 (Z.leb_gt b 0xDF)),
    (proj2 (Z.leb_le 0xE0 b)), (proj2 (Z.leb_le b 0xEF)) by lia.
  cbn [andb]. by rewrite land_ones_15.
Qed.

Lemma utf8_decode_lead4 b rest cp lower upper :
  0xF0 ≤ b ≤ 0xF4 →
  utf8_decode (b :: rest) cp O lower upper =
  utf8_decode rest (b `mod` 8) 3
    (if b =? 0xF0 then 0x90 else 0x80) (if b =? 0xF4 then 0x8F else 0xBF).
Proof.
  intros Hb. cbn [utf8_decode].
  rewrite (proj2 (Z.leb_le 0 b)), (proj2 (Z.leb_gt b 0x7F)),
    (proj2 (Z.leb_le 0xC2 b)), (proj2 (Z.leb_gt b 0xDF)),
    (proj2 (Z.leb_le 0xE0 b)), (proj2 (Z.leb_gt b 0xEF)),
    (proj2 (Z.leb_le 0xF0 b)), (proj2 (Z.leb_le b 0xF4)) by lia.
  cbn [andb]. by rewrite land_ones_7.
Qed.

Lemma utf8_decode_continue b rest cp k lower upper :
  lower ≤ b ≤ upper →
  utf8_decode (b :: rest) cp (S (S k)) lower upper =
  utf8_decode rest (cp * 64 + b `mod` 64) (S k) 0x80 0xBF.
Proof.
  intros Hb. cbn [utf8_decode].
  rewrite (proj2 (Z.leb_le lower b)), (proj2 (Z.leb_le b upper)) by lia.
  cbn [andb]. rewrite land_ones_63, lor_shiftl_add by div_lia. done.
Qed.

Lemma utf8_decode_last b rest cp lower upper :
  lower ≤ b ≤ upper →
  utf8_decode (b :: rest) cp 1 lower upper =
  code_point_units (cp * 64 + b `mod` 64) ++ utf8_decode rest 0 O 0x80 0xBF.
Proof.
  intros Hb. cbn [utf8_decode].
  rewrite (proj2 (Z.leb_le lower b)), (proj2 (Z.leb_le b upper)) by lia.
  cbn [andb]. rewrite land_ones_63, lor_shiftl_add by div_lia. done.
Qed.

Lemma utf8_decode_code_point cp rest :
  is_scalar_value cp →
  utf8_decode (utf8_code_point cp ++ rest) 0 O 0x80 0xBF =
  code_point_units cp ++ utf8_decode rest 0 O 0x80 0xBF.
Proof.
  intros [Hcp Hsv]. unfold is_code_point in Hcp. unfold utf8_code_point.
  destruct (Z.ltb_spec cp 0x80).
  { cbn [app]. rewrite utf8_decode_ascii by lia.
    unfold code_point_units. by rewrite (proj2 (Z.leb_le cp 0xFFFF)) by lia. }
  destruct (Z.ltb_spec cp 0x800).
  { cbn [app]. rewrite utf8_decode_lead2, utf8_decode_last by div_lia.
    do 2 f_equal. div_lia. }
  destruct (Z.ltb_spec cp 0x10000).
  { cbn [app]. rewrite utf8_decode_lead3 by div_lia.
    rewrite utf8_decode_continue.
    - rewrite utf8_decode_last by div_lia. do 2 f_equal. div_lia.
    - destruct (Z.eqb_spec (0xE0 + cp `div` 4096) 0xE0);
        destruct (Z.eqb_spec (0xE0 + cp `div` 4096) 0xED); div_lia. }
  cbn [app]. rewrite utf8_decode_lead4 by div_lia.
  rewrite utf8_decode_continue.
  - rewrite utf8_decode_continue, utf8_decode_last by div_lia.
    do 2 f_equal. div_lia.
  - destruct (Z.eqb_spec (0xF0 + cp `div` 262144) 0xF0);
      destruct (Z.eqb_spec (0xF0 + cp `div` 262144) 0xF4); div_lia.
Qed.

Lemma code_points_scalar s : well_formed s → Forall is_scalar_value (code_points s).
Proof.
  induction 1 as [|u t Hcu Hu Hv _ IH|u v t Hu Hv _ IH] using well_formed_ind.
  - constructor.
  - rewrite code_points_cons_unit by done. constructor; [|done].
    unfold is_scalar_value, is_code_point, code_unit in *.
    split; [lia|]. intros Hs.
    destruct (decide (u ≤ 0xDBFF)).
    + assert (is_lead_surrogate u = true) by (apply is_lead_surrogate_spec; lia).
      congruence.
    + assert (is_trail_surrogate u = true) by (apply is_trail_surrogate_spec; lia).
      congruence.
  - destruct (Array_from_pair u v t Hu Hv) as [_ ->]. constructor; [|done].
    apply is_lead_surrogate_spec in Hu. apply is_trail_surrogate_spec in Hv.
    unfold is_scalar_value, is_code_point. lia.
Qed.

Lemma Buffer_toString_utf8 s : well_formed s → Buffer_toString (utf8_bytes s) = s.
Proof.
  intros Hs.
  rewrite <- (code_points_units s (well_formed_is_jsstring s Hs)) at 2.
  unfold utf8_bytes, Buffer_toString.
  induction (code_points_scalar s Hs) as [|cp cps Hcp _ IH]; [done|].
  rewrite !fmap_cons, !mjoin_cons.
  rewrite utf8_decode_code_point, IH by done. done.
Qed.

(** ** The bytes written by [Buffer.from(str)] *)

Lemma Buffer_from_bytes s : is_jsstring s → Forall byte (Buffer_from s).
Proof.
  assert (Forall byte [0xEF; 0xBF; 0xBD]) as Hrepl
    by (repeat constructor; unfold byte; lia).
  induction s as [|u t Hu IH|u v t Hu Hv IH] using code_point_ind; intros Hs.
  - constructor.
  - apply Forall_cons in Hs as [Hcu Ht]. specialize (IH Ht).
    unfold code_unit in Hcu. cbn [Buffer_from].
    destruct (Z.ltb_spec u 0x80); [constructor; [unfold byte; lia|done]|].
    destruct (Z.ltb_spec u 0x800).
    { apply Forall_app; split; [|done]. repeat constructor; unfold byte; div_lia. }
    destruct (is_lead_surrogate u) eqn:Hlead.
    { destruct t as [|v t']; [done|].
      specialize (Hu v t' eq_refl). cbn in Hu. rewrite Hu.
      apply Forall_app; split; done. }
    destruct (is_trail_surrogate u); [apply Forall_app; split; done|].
    apply Forall_app; split; [|done]. repeat constructor; unfold byte; div_lia.
  - apply Forall_cons in Hs as [_ Ht]. apply Forall_cons in Ht as [_ Ht].
    specialize (IH Ht). cbn [Buffer_from]. rewrite Hu, Hv.
    apply is_lead_surrogate_spec in Hu. apply is_trail_surrogate_spec in Hv.
    destruct (Z.ltb_spec u 0x80); [lia|]. destruct (Z.ltb_spec u 0x800); [lia|].
    apply Forall_app; split; [|done]. repeat constructor; unfold byte; div_lia.
Qed.

Lemma platform_bytes_bytes p s : is_jsstring s → Forall byte (platform_bytes p s).
Proof.
  intros Hs. unfold platform_bytes.
  destruct (runningInNode p); [by apply Buffer_from_bytes|by apply utf8_bytes_bytes].
Qed.

Lemma platform_bytes_utf8 p s : well_formed s → platform_bytes p s = utf8_bytes s.
Proof.
  intros Hs. unfold platform_bytes.
  destruct (runningInNode p); [by apply Buffer_from_utf8|done].
Qed.

(** ** The loop bodies *)

(** What [encodeBase64_] makes of one value. *)
Lemma encode_value_eq p pad s :
  is_jsstring s →
  encode_value p pad s =
  Ok (toUrlSafe (base64_body (platform_bytes p s)) ++
      (if pad then base64_padding (platform_bytes p s) else [])).
Proof.
  intros Hs. pose proof (platform_bytes_bytes p s Hs) as Hb.
  assert ((if runningInNode p then Ok (Buffer_toString_base64 (Buffer_from s))
           else btoa (mjoin (utf16ToUtf8Multibyte <$> Array_from s))) =
          Ok (base64_encode (platform_bytes p s))) as Henc.
  { unfold platform_bytes in *. destruct (runningInNode p); [done|].
    rewrite manual_utf8 by done. unfold btoa. by rewrite forallb_is_byte. }
  unfold encode_value. rewrite Henc. cbn [mbind result_bind].
  rewrite base64_encode_split, toUrlSafe_app.
  rewrite (toUrlSafe_padding (base64_padding _)) by apply base64_padding_cases.
  destruct pad; cbn [negb]; [done|].
  rewrite remove_EQ_app, app_nil_r; [done| |apply base64_padding_cases].
  by apply toUrlSafe_not_EQ, base64_body_not_EQ.
Qed.

(** What [decodeBase64_] makes of the URL-safe encoding of a byte sequence,
    with its padding or without it. *)
Lemma decode_value_base64 p bytes padding :
  Forall byte bytes →
  padding = [] ∨ padding = base64_padding bytes →
  decode_value p (toUrlSafe (base64_body bytes) ++ padding) =
  if runningInNode p then Ok (Buffer_toString bytes)
  else replace_regex multibyteSeq utf8MultibyteToUtf16 bytes.
Proof.
  intros Hb Hpad.
  assert (padding = [] ∨ padding = [EQ] ∨ padding = [EQ; EQ]) as Hcases.
  { destruct Hpad as [-> | ->]; [by left|]. apply base64_padding_cases. }
  unfold decode_value.
  rewrite <- (toUrlSafe_padding padding), <- toUrlSafe_app by done.
  rewrite fromUrlSafe_toUrlSafe; last first.
  { apply Forall_app. split; [by apply base64_body_not_url|].
    destruct Hcases as [->|[->| ->]]; by repeat constructor. }
  destruct (runningInNode p).
  - by rewrite Buffer_from_base64_encode.
  - by rewrite atob_base64.
Qed.

(** Decoding on any platform what was encoded on any platform. *)
Lemma decode_encode_value p q pad s :
  well_formed s → encode_value p pad s ≫= decode_value q = Ok s.
Proof.
  intros Hwf. pose proof (well_formed_is_jsstring s Hwf) as Hs.
  rewrite encode_value_eq by done. cbn [mbind result_bind].
  rewrite platform_bytes_utf8 by done.
  rewrite decode_value_base64;
    [|by apply utf8_bytes_bytes|destruct pad; [by right|by left]].
  destruct (runningInNode q).
  - by rewrite Buffer_toString_utf8.
  - by apply replace_multibyteSeq_utf8.
Qed.

(** ** The encoding of the specification *)

Lemma rfc4648_char_table i : 0 ≤ i < 64 → rfc4648_char i = base64_char i.
Proof.
  intros Hi.
  assert (all_below 64 (λ i, bool_decide (rfc4648_char i = base64_char i)) = true)
    as H by (by vm_compute).
  apply (all_below_spec _ _ H i) in Hi. by apply bool_decide_eq_true_1 in Hi.
Qed.

Lemma rfc4648_encode_base64 bytes :
  Forall byte bytes → rfc4648_encode bytes = base64_encode bytes.
Proof.
  induction bytes as [|a|a b|a b c l IH] using list_ind3; intros Hb.
  - done.
  - apply Forall_cons in Hb as [Ha _]. unfold byte in Ha.
    cbn [rfc4648_encode base64_encode]. rewrite sextet0, sextet1_last.
    rewrite !rfc4648_char_table by div_lia.
    f_equal; [|f_equal]; f_equal; div_lia.
  - apply Forall_cons in Hb as [Ha Hb]. apply Forall_cons in Hb as [Hb _].
    cbn [rfc4648_encode base64_encode].
    rewrite sextet0, sextet1, sextet2_last by done. unfold byte in *.
    rewrite !rfc4648_char_table by div_lia.
    f_equal; [|f_equal; [|f_equal]]; f_equal; div_lia.
  - apply Forall_cons in Hb as [Ha Hb]. apply Forall_cons in Hb as [Hb Hc].
    apply Forall_cons in Hc as [Hc Hl].
    cbn [rfc4648_encode base64_encode].
    rewrite sextet0, sextet1, sextet2, land_ones_63 by done. unfold byte in *.
    rewrite !rfc4648_char_table by div_lia. rewrite IH by done. cbn [app].
    f_equal; [|f_equal; [|f_equal; [|f_equal]]]; f_equal; div_lia.
Qed.

Lemma spec_url_safe_toUrlSafe s : spec_url_safe s = toUrlSafe s.
Proof. by rewrite toUrlSafe_map. Qed.

Lemma strip_trailing_padding_app body padding :
  Forall (λ c, c ≠ EQ) body →
  padding = [] ∨ padding = [EQ] ∨ padding = [EQ; EQ] →
  strip_trailing_padding (body ++ padding) = body.
Proof.
  intros Hbody Hpad. induction Hbody as [|c s Hc _ IH].
  - by destruct Hpad as [->|[->| ->]].
  - cbn [app strip_trailing_padding]. rewrite IH.
    destruct s; [|done]. by destruct (Z.eqb_spec c EQ).
Qed.

(** On the [btoa] path the encoding of the specification is computed of
    every string. *)
Lemma encode_value_spec_manual p pad v :
  runningInNode p = false → is_jsstring v →
  encode_value p pad v = Ok (spec_encode_one pad v).
Proof.
  intros Hp Hv. pose proof (utf8_bytes_bytes v Hv) as Hb.
  rewrite encode_value_eq by done. unfold platform_bytes. rewrite Hp. f_equal.
  unfold spec_encode_one. cbn zeta.
  rewrite spec_url_safe_toUrlSafe, rfc4648_encode_base64 by done.
  rewrite base64_encode_split, toUrlSafe_app.
  rewrite (toUrlSafe_padding (base64_padding _)) by apply base64_padding_cases.
  destruct pad; [done|]. rewrite app_nil_r.
  rewrite strip_trailing_padding_app; [done| |apply base64_padding_cases].
  by apply toUrlSafe_not_EQ, base64_body_not_EQ.
Qed.

(** ** What [atob] takes and what it refuses *)

Lemma remove_padding_elem c data :
  c ∈ data → c ≠ EQ → c ∈ remove_padding data.
Proof.
  intros Hc Hne. unfold remove_padding.
  apply elem_of_reverse in Hc.
  destruct (reverse data) as [|c1 r1] eqn:Hrev; [by apply elem_of_nil in Hc|].
  destruct (Z.eqb_spec c1 EQ) as [->|_];
    [|rewrite <- (reverse_involutive data), Hrev; by apply elem_of_reverse].
  apply elem_of_cons in Hc as [->|Hc]; [done|].
  destruct r1 as [|c2 r2]; [by apply elem_of_nil in Hc|].
  destruct (Z.eqb_spec c2 EQ) as [->|_]; [|by apply elem_of_reverse].
  apply elem_of_cons in Hc as [->|Hc]; [done|]. by apply elem_of_reverse.
Qed.

(** A character that is not of the alphabet, not [=] and not white space
    makes [atob] throw. *)
Lemma atob_invalid_character c data :
  c ∈ data → base64_index c = None → c ≠ EQ → is_ascii_whitespace c = false →
  atob data = Throw InvalidCharacterError.
Proof.
  intros Hc Hidx Hne Hws. unfold atob.
  set (data1 := filter _ data).
  assert (c ∈ data1) as Hc1.
  { apply list_elem_of_filter. split; [by rewrite Hws|done]. }
  set (data2 := if (length data1 `mod` 4 =? 0)%nat then _ else _).
  assert (c ∈ data2) as Hc2.
  { unfold data2. destruct (_ =? _)%nat; [by apply remove_padding_elem|done]. }
  cbn zeta. destruct (_ =? 1)%nat; [done|].
  assert (forallb (λ c, bool_decide (is_Some (base64_index c))) data2 = false) as ->;
    [|done].
  apply not_true_iff_false. intros Hall.
  rewrite forallb_forall in Hall. apply list_elem_of_In in Hc2.
  specialize (Hall c Hc2). apply bool_decide_eq_true_1 in Hall.
  rewrite Hidx in Hall. by destruct Hall.
Qed.

Lemma remove_padding_cases data :
  ∃ k, (k = [] ∨ k = [EQ] ∨ k = [EQ; EQ]) ∧ data = remove_padding data ++ k.
Proof.
  unfold remove_padding. destruct (reverse data) as [|c1 r1] eqn:Hrev.
  { exists []. split; [by left|]. by rewrite app_nil_r. }
  apply (f_equal reverse) in Hrev. rewrite reverse_involutive in Hrev.
  destruct (Z.eqb_spec c1 EQ) as [->|_]; last first.
  { exists []. split; [by left|]. by rewrite app_nil_r. }
  rewrite reverse_cons in Hrev. destruct r1 as [|c2 r2].
  { exists [EQ]. split; [by right; left|done]. }
  destruct (Z.eqb_spec c2 EQ) as [->|_].
  - exists [EQ; EQ]. split; [by right; right|].
    by rewrite Hrev, reverse_cons, <- app_assoc.
  - exists [EQ]. split; [by right; left|done].
Qed.

Lemma alphabet_prefix_split s :
  s = alphabet_prefix s ++ drop (length (alphabet_prefix s)) s.
Proof.
  induction s as [|c s IH]; [done|]. cbn [alphabet_prefix].
  destruct (bool_decide _); [|done]. cbn. by rewrite <- IH.
Qed.

Lemma alphabet_prefix_chars s :
  forallb (λ c, bool_decide (is_Some (base64_index c))) (alphabet_prefix s) = true.
Proof.
  induction s as [|c s IH]; [done|]. cbn [alphabet_prefix].
  destruct (bool_decide _) eqn:Hc; [|done]. cbn [forallb]. by rewrite Hc, IH.
Qed.

Lemma alphabet_prefix_app body padding :
  forallb (λ c, bool_decide (is_Some (base64_index c))) body = true →
  padding = [] ∨ padding = [EQ] ∨ padding = [EQ; EQ] →
  alphabet_prefix (body ++ padding) = body.
Proof.
  intros Hbody Hpad. induction body as [|c body IH].
  - by destruct Hpad as [->|[->| ->]].
  - cbn [forallb] in Hbody. apply andb_true_iff in Hbody as [Hc Hbody].
    cbn [app alphabet_prefix]. by rewrite Hc, IH.
Qed.

Lemma alphabet_not_EQ body :
  forallb (λ c, bool_decide (is_Some (base64_index c))) body = true →
  Forall (λ c, c ≠ EQ) body.
Proof.
  intros Hbody. apply Forall_forall. intros c Hc ->.
  rewrite forallb_forall in Hbody. apply list_elem_of_In in Hc.
  by specialize (Hbody _ Hc).
Qed.

(** [forgiving_base64] by cases. *)
Lemma forgiving_base64_cases s :
  let data := filter (λ u, negb (is_ascii_whitespace u) = true) s in
  let body := alphabet_prefix data in
  let padding := drop (length body) data in
  forgiving_base64 s = true ↔
  (padding = [] ∧ (length body mod 4 ≠ 1)%nat) ∨
  (padding = [EQ] ∧ (length body mod 4 = 3)%nat) ∨
  (padding = [EQ; EQ] ∧ (length body mod 4 = 2)%nat).
Proof.
  intros data body padding. unfold forgiving_base64. fold data body padding.
  pose proof (Nat.mod_upper_bound (length body) 4 ltac:(lia)) as Hup.
  destruct (length body mod 4)%nat as [|[|[|[|n]]]]; [..|lia];
    rewrite ?bool_decide_eq_true; intuition (lia || discriminate).
Qed.

(** [atob] takes exactly [forgiving_base64]. *)
Lemma atob_forgiving_base64 data :
  if forgiving_base64 data then ∃ bytes, atob data = Ok bytes
  else atob data = Throw InvalidCharacterError.
Proof.
  pose proof (forgiving_base64_cases data) as Hcases. cbn zeta in Hcases.
  unfold atob. set (d := filter _ data) in *. cbn zeta.
  pose proof (alphabet_prefix_split d) as Hsplit.
  pose proof (alphabet_prefix_chars d) as Hchars.
  set (body := alphabet_prefix d) in *.
  set (padding := drop (length body) d) in *.
  assert (length d = (length body + length padding)%nat) as Hlen
    by (by rewrite Hsplit at 1; rewrite length_app).
  destruct (forgiving_base64 data).
  - (* valid *)
    apply proj1 in Hcases. specialize (Hcases eq_refl).
    assert (padding = [] ∨ padding = [EQ] ∨ padding = [EQ; EQ]) as Hpad
      by (destruct Hcases as [[? _]|[[? _]|[? _]]]; auto).
    assert ((if (length d mod 4 =? 0)%nat then remove_padding d else d) = body)
      as ->.
    { destruct (Nat.eqb_spec (length d mod 4) 0) as [H0|H0].
      - rewrite Hsplit. apply remove_padding_app; [|done].
        by apply alphabet_not_EQ.
      - destruct Hcases as [[Hp _]|[[Hp ?]|[Hp ?]]]; rewrite Hp in *;
          cbn [length] in Hlen.
        + by rewrite app_nil_r in Hsplit.
        + exfalso. div_lia.
        + exfalso. div_lia. }
    rewrite Hchars. cbn [negb].
    destruct (Nat.eqb_spec (length body mod 4) 1) as [H1|H1]; [|by eexists].
    exfalso. destruct Hcases as [[_ ?]|[[_ ?]|[_ ?]]]; lia.
  - (* not valid *)
    destruct (Nat.eqb_spec (length (if (length d mod 4 =? 0)%nat
                then remove_padding d else d) mod 4) 1) as [H1|H1]; [done|].
    destruct (forallb _ (if (length d mod 4 =? 0)%nat then remove_padding d else d))
      eqn:Hall; [|done].
    exfalso. assert (false = true) as Habs; [|done]. apply Hcases.
    assert (∀ d2 k, forallb (λ c, bool_decide (is_Some (base64_index c))) d2 = true →
                    k = [] ∨ k = [EQ] ∨ k = [EQ; EQ] → d = d2 ++ k →
                    body = d2 ∧ padding = k) as Huniq.
    { intros d2 k Hd2 Hk Heq. unfold padding, body. rewrite Heq.
      rewrite alphabet_prefix_app by done. by rewrite drop_app_length. }
    destruct (Nat.eqb_spec (length d mod 4) 0) as [H0|H0].
    + pose proof (remove_padding_cases d) as (k & Hk & Hd).
      destruct (Huniq _ k Hall Hk Hd) as [Hb Hp]. rewrite <- Hb in *.
      rewrite Hp in *.
      destruct Hk as [->|[->| ->]]; cbn [length] in Hlen.
      * left. split; [done|lia].
      * right; left. split; [done|div_lia].
      * right; right. split; [done|div_lia].
    + destruct (Huniq d [] Hall ltac:(by left) ltac:(by rewrite app_nil_r))
        as [Hb Hp].
      left. split; [done|]. by rewrite Hb.
Qed.

(** ** What the scan of [decodeBase64_] rejects *)

(** The code point [utf8MultibyteToUtf16] computes of two, three and four
    bytes that [multibyteSeq] matches. *)
Lemma utf8MultibyteToUtf16_matched2 b0 b1 :
  0xC0 ≤ b0 ≤ 0xDF → 0x80 ≤ b1 ≤ 0xBF →
  utf8MultibyteToUtf16 [b0; b1] = Ok [(b0 - 0xC0) * 64 + (b1 - 0x80)].
Proof.
  intros H0 H1. unfold utf8MultibyteToUtf16.
  change 0x1f with (Z.ones 5). change 0x3f with (Z.ones 6).
  rewrite !low_bits by lia. rewrite js_shl_small by div_lia.
  replace (b0 `mod` 2 ^ 5 * 2 ^ 6 + b1 `mod` 2 ^ 6)
    with ((b0 - 0xC0) * 64 + (b1 - 0x80)) by div_lia.
  unfold fromCodePoint.
  destruct (Z.ltb_spec ((b0 - 0xC0) * 64 + (b1 - 0x80)) 0); [lia|].
  destruct (Z.ltb_spec 0x10FFFF ((b0 - 0xC0) * 64 + (b1 - 0x80))); [lia|].
  cbn [orb]. by destruct (Z.leb_spec ((b0 - 0xC0) * 64 + (b1 - 0x80)) 0xFFFF); [|lia].
Qed.

Lemma utf8MultibyteToUtf16_matched3 b0 b1 b2 :
  0xE0 ≤ b0 ≤ 0xEF → 0x80 ≤ b1 ≤ 0xBF → 0x80 ≤ b2 ≤ 0xBF →
  utf8MultibyteToUtf16 [b0; b1; b2] =
  Ok [(b0 - 0xE0) * 4096 + (b1 - 0x80) * 64 + (b2 - 0x80)].
Proof.
  intros H0 H1 H2. unfold utf8MultibyteToUtf16.
  change 0x0f with (Z.ones 4). change 0x3f with (Z.ones 6).
  rewrite !low_bits by lia. rewrite !js_shl_small by div_lia.
  replace (b0 `mod` 2 ^ 4 * 2 ^ 12 + b1 `mod` 2 ^ 6 * 2 ^ 6 + b2 `mod` 2 ^ 6)
    with ((b0 - 0xE0) * 4096 + (b1 - 0x80) * 64 + (b2 - 0x80)) by div_lia.
  set (cp := (b0 - 0xE0) * 4096 + (b1 - 0x80) * 64 + (b2 - 0x80)).
  assert (0 ≤ cp ≤ 0xFFFF) by (unfold cp; lia).
  unfold fromCodePoint.
  destruct (Z.ltb_spec cp 0); [lia|]. destruct (Z.ltb_spec 0x10FFFF cp); [lia|].
  cbn [orb]. by destruct (Z.leb_spec cp 0xFFFF); [|lia].
Qed.

Lemma utf8MultibyteToUtf16_matched4 b0 b1 b2 b3 :
  0xF0 ≤ b0 ≤ 0xF7 → 0x80 ≤ b1 ≤ 0xBF → 0x80 ≤ b2 ≤ 0xBF → 0x80 ≤ b3 ≤ 0xBF →
  utf8MultibyteToUtf16 [b0; b1; b2; b3] =
  fromCodePoint ((b0 - 0xF0) * 262144 + (b1 - 0x80) * 4096 + (b2 - 0x80) * 64 +
                 (b3 - 0x80)).
Proof.
  intros H0 H1 H2 H3. unfold utf8MultibyteToUtf16.
  change 0x07 with (Z.ones 3). change 0x3f with (Z.ones 6).
  rewrite !low_bits by lia. rewrite !js_shl_small by div_lia.
  f_equal. div_lia.
Qed.

Lemma has_out_of_range_skip b rest :
  ¬ (0xF0 ≤ b ≤ 0xF7) → has_out_of_range (b :: rest) = has_out_of_range rest.
Proof.
  intros Hb. cbn [has_out_of_range].
  destruct rest as [|b1 [|b2 [|b3 rest]]]; try done.
  unfold out_of_range4. by rewrite (in_class_false 0xF0) by lia.
Qed.

Ltac no_match :=
  cbn [regex_exec multibyteSeq match_classes];
  repeat match goal with H : in_class _ _ = false |- _ => rewrite H; clear H end;
  rewrite ?andb_false_r; done.

(** What [multibyteSeq] makes of the head of a string. *)
Lemma regex_exec_multibyteSeq s :
  (∃ b0 b1 rest, s = [b0; b1] ++ rest ∧ 0xC0 ≤ b0 ≤ 0xDF ∧ 0x80 ≤ b1 ≤ 0xBF) ∨
  (∃ b0 b1 b2 rest, s = [b0; b1; b2] ++ rest ∧
     0xE0 ≤ b0 ≤ 0xEF ∧ 0x80 ≤ b1 ≤ 0xBF ∧ 0x80 ≤ b2 ≤ 0xBF) ∨
  (∃ b0 b1 b2 b3 rest, s = [b0; b1; b2; b3] ++ rest ∧
     0xF0 ≤ b0 ≤ 0xF7 ∧ 0x80 ≤ b1 ≤ 0xBF ∧ 0x80 ≤ b2 ≤ 0xBF ∧ 0x80 ≤ b3 ≤ 0xBF) ∨
  (regex_exec multibyteSeq s = None ∧
   has_out_of_range s = has_out_of_range (tail s)).
Proof.
  assert (∀ lo hi u, lo ≤ u ≤ hi ∨ in_class (lo, hi) u = false) as Hclass.
  { intros lo hi u. unfold in_class. cbn.
    destruct (Z.leb_spec lo u), (Z.leb_spec u hi); auto; left; lia. }
  destruct s as [|b0 t]; [by right; right; right|].
  destruct (Hclass 0xC0 0xDF b0) as [H0|H0c].
  { destruct t as [|b1 t].
    { right; right; right. split; [no_match|done]. }
    destruct (Hclass 0x80 0xBF b1) as [H1|H1].
    - left. by exists b0, b1, t.
    - right; right; right. split; [|apply has_out_of_range_skip; lia].
      pose proof (in_class_false 0xE0 0xEF b0 ltac:(lia)).
      pose proof (in_class_false 0xF0 0xF7 b0 ltac:(lia)). no_match. }
  destruct (Hclass 0xE0 0xEF b0) as [H0|H0e].
  { right. destruct t as [|b1 [|b2 t]].
    1,2: right; right; split; [no_match|apply has_out_of_range_skip; lia].
    destruct (Hclass 0x80 0xBF b1) as [H1|H1];
      [destruct (Hclass 0x80 0xBF b2) as [H2|H2]|].
    - left. by exists b0, b1, b2, t.
    - right; right. split; [|apply has_out_of_range_skip; lia].
      pose proof (in_class_false 0xF0 0xF7 b0 ltac:(lia)). no_match.
    - right; right. split; [|apply has_out_of_range_skip; lia].
      pose proof (in_class_false 0xF0 0xF7 b0 ltac:(lia)). no_match. }
  destruct (Hclass 0xF0 0xF7 b0) as [H0|H0f]; last first.
  { right; right; right. split; [no_match|].
    cbn [has_out_of_range tail]. unfold out_of_range4.
    by destruct t as [|b1 [|b2 [|b3 t]]]; rewrite ?H0f. }
  right; right. destruct t as [|b1 [|b2 [|b3 t]]].
  1,2,3: right; split; [no_match|done].
  destruct (Hclass 0x80 0xBF b1) as [H1|H1];
    [destruct (Hclass 0x80 0xBF b2) as [H2|H2];
      [destruct (Hclass 0x80 0xBF b3) as [H3|H3]|]|].
  - left. by exists b0, b1, b2, b3, t.
  - right. split; [|cbn [has_out_of_range tail]; unfold out_of_range4 at 1;
                    by rewrite H3, !andb_false_r]. no_match.
  - right. split; [|cbn [has_out_of_range tail]; unfold out_of_range4 at 1;
                    by rewrite H2, !andb_false_r]. no_match.
  - right. split; [|cbn [has_out_of_range tail]; unfold out_of_range4 at 1;
                    by rewrite H1, !andb_false_r]. no_match.
Qed.

(** The scan throws exactly when it meets four bytes that stand for a
    number above 0x10FFFF, and then a [RangeError]. *)
Lemma replace_multibyteSeq_result bytes :
  if has_out_of_range bytes
  then replace_regex multibyteSeq utf8MultibyteToUtf16 bytes = Throw RangeError
  else ∃ r, replace_regex multibyteSeq utf8MultibyteToUtf16 bytes = Ok r.
Proof.
  remember (length bytes) as n eqn:Hn.
  revert bytes Hn. induction n as [n IH] using lt_wf_ind. intros bytes Hn.
  destruct (regex_exec_multibyteSeq bytes)
    as [(b0 & b1 & rest & -> & H0 & H1)
       |[(b0 & b1 & b2 & rest & -> & H0 & H1 & H2)
        |[(b0 & b1 & b2 & b3 & rest & -> & H0 & H1 & H2 & H3)
         |[Hnone Hskip]]]].
  - rewrite (replace_regex_match _ _ _ [_]) by (by apply multibyteSeq_two).
    rewrite utf8MultibyteToUtf16_matched2 by done. cbn [app].
    rewrite !has_out_of_range_skip by lia.
    specialize (IH (length rest) ltac:(subst n; cbn; lia) rest eq_refl).
    destruct (has_out_of_range rest); [by rewrite IH|].
    destruct IH as [r ->]. by eexists.
  - rewrite (replace_regex_match _ _ _ [_; _]) by (by apply multibyteSeq_three).
    rewrite utf8MultibyteToUtf16_matched3 by done. cbn [app].
    rewrite !has_out_of_range_skip by lia.
    specialize (IH (length rest) ltac:(subst n; cbn; lia) rest eq_refl).
    destruct (has_out_of_range rest); [by rewrite IH|].
    destruct IH as [r ->]. by eexists.
  - rewrite (replace_regex_match _ _ _ [_; _; _]) by (by apply multibyteSeq_four).
    rewrite utf8MultibyteToUtf16_matched4 by done. cbn [app].
    change (has_out_of_range (b0 :: b1 :: b2 :: b3 :: rest))
      with (out_of_range4 b0 b1 b2 b3 || has_out_of_range (b1 :: b2 :: b3 :: rest)).
    rewrite !has_out_of_range_skip by lia.
    unfold out_of_range4. rewrite !in_class_true by lia. cbn [andb].
    set (cp := (b0 - 0xF0) * 262144 + (b1 - 0x80) * 4096 + (b2 - 0x80) * 64 +
               (b3 - 0x80)).
    destruct (Z.ltb_spec 0x10FFFF cp) as [Hcp|Hcp]; cbn [orb].
    + unfold fromCodePoint. rewrite (proj2 (Z.ltb_lt 0x10FFFF cp)) by done.
      by rewrite orb_true_r.
    + rewrite fromCodePoint_units by (unfold is_code_point, cp; lia).
      specialize (IH (length rest) ltac:(subst n; cbn; lia) rest eq_refl).
      destruct (has_out_of_range rest); [by rewrite IH|].
      destruct IH as [r ->]. by eexists.
  - destruct bytes as [|b t]; [by eexists|].
    rewrite replace_regex_no_match by done. rewrite Hskip. cbn [tail].
    specialize (IH (length t) ltac:(subst n; cbn; lia) t eq_refl).
    destruct (has_out_of_range t); [by rewrite IH|].
    destruct IH as [r ->]. by eexists.
Qed.

(** ** The tests of [string_ops_test.ts] *)

Example encode_txtArr (p : Platform) :
  mapM (encode_value p false) txtArr = Ok b64Arr ∧
  mapM (encode_value p true) txtArr = Ok b64ArrPad.
Proof. by destruct p; vm_compute. Qed.

Example decode_b64Arr (p : Platform) :
  mapM (decode_value p) b64Arr = Ok txtArr ∧
  mapM (decode_value p) b64ArrPad = Ok txtArr.
Proof. by destruct p; vm_compute. Qed.

Example encodeBase64_2D (p : Platform) :
  observed (encodeBase64_ p test_tensor2d false test_heap) =
  Ok ([2; 4]%nat, string_, JString <$> b64Arr).
Proof. by destruct p; vm_compute. Qed.

Example encodeBase64_3D_padded (p : Platform) :
  observed (encodeBase64_ p test_tensor3d true test_heap) =
  Ok ([2; 2; 2]%nat, string_, JString <$> b64ArrPad).
Proof. by destruct p; vm_compute. Qed.

(** ** The monad of the heap, and [mapM] on results *)

Lemma bind_run {A B} (m : M A) (k : A → M B) (h : heap) :
  (m ≫= k) h =
  match m h with Done a h' => k a h' | Raise e h' => Raise e h' end.
Proof. done. Qed.

Lemma mapM_result_cons {A B} (f : A → result B) x l :
  mapM f (x :: l) =
  match f x with
  | Ok y => match mapM f l with Ok k => Ok (y :: k) | Throw e => Throw e end
  | Throw e => Throw e
  end.
Proof. done. Qed.

Lemma mapM_result_Ok {A B} (f : A → result B) l k :
  mapM f l = Ok k ↔ Forall2 (λ x y, f x = Ok y) l k.
Proof.
  revert k. induction l as [|x l IH]; intros k.
  - split; [intros [= <-]; constructor|by inversion 1].
  - rewrite mapM_result_cons. split.
    + destruct (f x) as [y|] eqn:Hx; [|done].
      destruct (mapM f l) as [k'|]; [|done]. intros [= <-].
      constructor; [done|]. by apply IH.
    + inversion 1 as [|? y ? k' Hx Hl]; subst. rewrite Hx.
      apply IH in Hl. by rewrite Hl.
Qed.

(** [mapM] fails with the exception of the first element that fails. *)
Lemma mapM_result_Throw {A B} (f : A → result B) l e :
  mapM f l = Throw e ↔
  ∃ pre x post, l = pre ++ x :: post ∧
                Forall (λ x, ∃ y, f x = Ok y) pre ∧ f x = Throw e.
Proof.
  induction l as [|x l IH].
  - split; [done|]. intros (pre & ? & ? & Hl & _). by destruct pre.
  - rewrite mapM_result_cons. split.
    + destruct (f x) as [y|e'] eqn:Hx.
      * destruct (mapM f l) as [k'|e'] eqn:Hl; [done|]. intros [= ->].
        destruct (proj1 IH eq_refl) as (pre & x' & post & -> & Hpre & Hx').
        exists (x :: pre), x', post. split_and!; [done| |done].
        constructor; [by eexists|done].
      * intros [= ->]. by exists [], x, l.
    + intros (pre & x' & post & Hl & Hpre & Hx').
      destruct pre as [|x0 pre]; simplify_eq/=.
      * by rewrite Hx'.
      * apply Forall_cons in Hpre as [[y ->] Hpre].
        rewrite (proj2 IH); [done|]. by exists pre, x', post.
Qed.

Lemma mapM_result_total {A B} (f : A → result B) l :
  Forall (λ x, ∃ y, f x = Ok y) l → ∃ k, mapM f l = Ok k.
Proof.
  induction 1 as [|x l [y Hy] _ [k IH]]; [by exists []|].
  exists (y :: k). by rewrite mapM_result_cons, Hy, IH.
Qed.

Lemma js_array_set_next (outs : list jsstring) sz r :
  js_array_set ((JString <$> outs) ++ replicate (sz - length outs) JUndefined)
    (length outs) (JString r) =
  (JString <$> (outs ++ [r])) ++ replicate (sz - S (length outs)) JUndefined.
Proof.
  unfold js_array_set. rewrite length_app, length_fmap, length_replicate.
  rewrite fmap_app, <- app_assoc. cbn [fmap list_fmap app].
  destruct (decide _) as [Hlt|Hge].
  - replace (sz - length outs)%nat with (S (sz - S (length outs))) by lia.
    cbn [replicate].
    rewrite insert_app_r_alt by (rewrite length_fmap; lia).
    rewrite length_fmap, Nat.sub_diag. by rewrite <- app_assoc.
  - replace (sz - length outs)%nat with O by lia.
    replace (sz - S (length outs))%nat with O by lia.
    replace (length outs - (length outs + 0))%nat with O by lia.
    cbn [replicate app]. by rewrite !app_nil_r.
Qed.

(** ** The loop over the values of a tensor *)

Lemma encodeBase64_tensor_map p str pad :
  encodeBase64_ p str pad = tensor_map (encode_value p pad) str.
Proof. done. Qed.

Lemma decodeBase64_tensor_map p str :
  decodeBase64_ p str = tensor_map (decode_value p) str.
Proof. done. Qed.

Section tensor_map.
  Context (f : jsstring → result jsstring).

(** The loop reads [values] and writes [resultValues] only. *)
Lemma for_loop_pure (values resultValues : loc) (h : heap) arr n i res :
  values ≠ resultValues →
  h !! values = Some arr →
  for_loop n i (λ i,
      x ← array_get values i;
      sVal ← toString x;
      sVal ← lift (f sVal);
      array_set resultValues i (JString sVal)) (<[resultValues := res]> h) =
  match loop_pure f arr n i res with
  | inr res' => Done () (<[resultValues := res']> h)
  | inl (e, res') => Raise e (<[resultValues := res']> h)
  end.
Proof.
  intros Hne Harr. revert i res.
  induction n as [|n IH]; intros i res; [done|].
  cbn [for_loop loop_pure]. rewrite !bind_run.
  unfold array_get at 1. rewrite lookup_insert_ne, Harr by done.
  destruct (default JUndefined (arr !! i)) as [|s]; [done|].
  rewrite bind_run. cbn [toString]. unfold mret at 1, M_ret at 1.
  rewrite bind_run. unfold lift at 1.
  destruct (f s) as [r|e]; [|done].
  unfold array_set at 1. rewrite lookup_insert_eq, insert_insert_eq.
  apply IH.
Qed.

Lemma tensor_map_pure str (h : heap) arr :
  dtype str = string_ →
  h !! dataId str = Some arr →
  tensor_map f str h =
  let l := fresh (dom h) in
  match loop_pure f arr (length arr) O (replicate (size str) JUndefined) with
  | inr res => Done (mkTensor (shape str) string_ l) (<[l := res]> h)
  | inl (e, res) => Raise e (<[l := res]> h)
  end.
Proof.
  intros Hdt Harr. unfold tensor_map, convertToTensor.
  destruct (decide (dtype str = string_)) as [_|]; [|done].
  rewrite bind_run. unfold mret at 1, M_ret at 1.
  rewrite bind_run. unfold new_Array at 1.
  set (l := fresh (dom h)).
  assert (dataId str ≠ l) as Hne.
  { intros Heq. pose proof (is_fresh (dom h)) as Hfresh. fold l in Hfresh.
    apply Hfresh. rewrite <- Heq. apply elem_of_dom. by eexists. }
  rewrite bind_run. unfold array_length at 1, dataSync.
  rewrite lookup_insert_ne, Harr by done.
  rewrite bind_run.
  rewrite (for_loop_pure (dataId str) l h arr) by done.
  cbn zeta. destruct (loop_pure _ _ _ _ _) as [[e res]|res]; [done|].
  unfold mret, M_ret, Tensor_make. by rewrite Hdt.
Qed.

Lemma loop_pure_strings (done todo outs : list jsstring) sz :
  length done = length outs →
  match mapM f todo,
        loop_pure f (JString <$> (done ++ todo)) (length todo) (length done)
          ((JString <$> outs) ++ replicate (sz - length outs) JUndefined) with
  | Ok outs', inr res =>
      res = (JString <$> (outs ++ outs')) ++
            replicate (sz - length (done ++ todo)) JUndefined
  | Throw e, inl (e', _) => e' = e
  | _, _ => False
  end.
Proof.
  revert done outs. induction todo as [|s todo IH]; intros done outs Hlen.
  - cbn [mapM loop_pure mret result_ret]. by rewrite !app_nil_r, Hlen.
  - rewrite mapM_result_cons. cbn [length loop_pure].
    rewrite list_lookup_fmap, lookup_app_r, Nat.sub_diag by lia.
    cbn [lookup list_lookup fmap option_fmap option_map default from_option id].
    destruct (f s) as [r|e]; [|done].
    rewrite Hlen, js_array_set_next.
    specialize (IH (done ++ [s]) (outs ++ [r])).
    rewrite !length_app, <- !app_assoc in IH. cbn [length app] in IH.
    rewrite !Nat.add_1_r, <- Hlen in IH. rewrite <- Hlen.
    specialize (IH eq_refl).
    destruct (mapM f todo) as [outs'|e]; [|done].
    destruct (loop_pure _ _ _ _ _) as [|res]; [done|].
    rewrite IH, length_app, <- app_assoc. cbn [length app].
    by rewrite Nat.add_succ_r.
Qed.

(** The tensor operation on a tensor whose array holds strings. *)
Lemma tensor_map_strings str (h : heap) (vals : list jsstring) :
  dtype str = string_ →
  h !! dataId str = Some (JString <$> vals) →
  match mapM f vals with
  | Ok outs =>
      tensor_map f str h =
      Done (mkTensor (shape str) string_ (fresh (dom h)))
        (<[fresh (dom h) :=
             (JString <$> outs) ++ replicate (size str - length vals) JUndefined]> h)
  | Throw e => ∃ res, tensor_map f str h = Raise e (<[fresh (dom h) := res]> h)
  end.
Proof.
  intros Hdt Harr. rewrite (tensor_map_pure str h _ Hdt Harr). cbn zeta.
  pose proof (loop_pure_strings [] vals [] (size str) eq_refl) as H.
  cbn [app length fmap list_fmap] in H. rewrite Nat.sub_0_r in H.
  rewrite length_fmap.
  destruct (mapM f vals) as [outs|e];
    destruct (loop_pure _ _ _ _ _) as [[e' res]|res]; try done.
  - by rewrite H.
  - subst e'. by exists res.
Qed.

(** The operation throws what the first value that fails throws. *)
Lemma tensor_map_fail_fast str (h : heap) pre s post e :
  dtype str = string_ →
  h !! dataId str = Some (JString <$> (pre ++ s :: post)) →
  Forall (λ x, ∃ y, f x = Ok y) pre →
  f s = Throw e →
  ∃ h', tensor_map f str h = Raise e h'.
Proof.
  intros Hdt Harr Hpre Hs.
  pose proof (tensor_map_strings str h _ Hdt Harr) as H.
  rewrite (proj2 (mapM_result_Throw f (pre ++ s :: post) e)) in H
    by (by exists pre, s, post).
  destruct H as [res H]. by eexists.
Qed.

Lemma tensor_map_frame str (h : heap) arr :
  h !! dataId str = Some arr →
  let o := tensor_map f str h in
  (∀ l, l ∈ dom h → outcome_heap o !! l = h !! l) ∧
  (∀ t' h', o = Done t' h' → (dataId t' ∉ dom h) ∧ dataId t' ∈ dom h') ∧
  (∀ h2 : heap, h2 !! dataId str = Some arr →
                observed (tensor_map f str h2) = observed o).
Proof.
  intros Harr o. subst o.
  destruct (decide (dtype str = string_)) as [Hdt|Hdt].
  - rewrite (tensor_map_pure str h arr Hdt Harr). cbn zeta.
    assert (∀ (res : list jsval) (l : loc),
               l ∈ dom h → <[fresh (dom h) := res]> h !! l = h !! l) as Hold.
    { intros res l Hl. apply lookup_insert_ne. intros <-.
      by apply (is_fresh (dom h)). }
    split_and!.
    + intros l Hl. destruct (loop_pure _ _ _ _ _) as [[e res]|res]; by apply Hold.
    + intros t' h' Ho.
      destruct (loop_pure _ _ _ _ _) as [[e res]|res]; [done|].
      injection Ho as <- <-. cbn [dataId]. split; [apply is_fresh|].
      apply elem_of_dom. rewrite lookup_insert_eq. by eexists.
    + intros h2 Harr2. rewrite (tensor_map_pure str h2 arr Hdt Harr2). cbn zeta.
      destruct (loop_pure _ _ _ _ _) as [[e res]|res]; [done|].
      cbn [observed shape dtype dataId]. by rewrite !lookup_insert_eq.
  - assert (∀ h0 : heap, tensor_map f str h0 = Raise InputTypeError h0) as Hraise.
    { intros h0. unfold tensor_map, convertToTensor.
      by destruct (decide (dtype str = string_)). }
    rewrite Hraise. split_and!; [done|done|].
    intros h2 _. by rewrite Hraise.
Qed.

(** The values of the tensor [tensor_map] returns. *)
Lemma tensor_map_Done t (h : heap) (vals : list jsstring) :
  dtype t = string_ →
  h !! dataId t = Some (JString <$> vals) →
  size t = length vals →
  (∀ outs, Forall2 (λ v o, f v = Ok o) vals outs →
     ∃ t' h', tensor_map f t h = Done t' h' ∧ shape t' = shape t ∧
              dtype t' = dtype t ∧ h' !! dataId t' = Some (JString <$> outs)) ∧
  (∀ t' h', tensor_map f t h = Done t' h' →
     ∃ outs, shape t' = shape t ∧ dtype t' = dtype t ∧
             h' !! dataId t' = Some (JString <$> outs) ∧
             length outs = length vals ∧ Forall2 (λ v o, f v = Ok o) vals outs).
Proof.
  intros Hdt Harr Hsize.
  pose proof (tensor_map_strings t h vals Hdt Harr) as H.
  rewrite Hsize, Nat.sub_diag in H. cbn [replicate] in H.
  split.
  - intros outs Houts. apply mapM_result_Ok in Houts. rewrite Houts in H.
    rewrite app_nil_r in H. eexists _, _. split; [exact H|].
    cbn [shape dtype dataId]. by rewrite lookup_insert_eq.
  - intros t' h' Hdone. destruct (mapM f vals) as [outs|e] eqn:Hm.
    + rewrite app_nil_r, Hdone in H. injection H as -> ->.
      apply mapM_result_Ok in Hm. exists outs. cbn [shape dtype dataId].
      rewrite lookup_insert_eq. split_and!; try done.
      symmetry. by eapply Forall2_length.
    + destruct H as [res H]. by rewrite Hdone in H.
Qed.

End tensor_map.

(** Decoding the tensor [encodeBase64] returns gives a tensor of the shape
    and of the values of the input. *)
Lemma decodeBase64_encodeBase64 p pad t (h : heap) (vals : list jsstring) :
  dtype t = string_ →
  h !! dataId t = Some (JString <$> vals) →
  size t = length vals →
  Forall well_formed vals →
  ∃ t1 h1 t2 h2,
    encodeBase64_ p t pad h = Done t1 h1 ∧
    decodeBase64_ p t1 h1 = Done t2 h2 ∧
    shape t2 = shape t ∧ h2 !! dataId t2 = Some (JString <$> vals).
Proof.
  intros Hdt Harr Hsize Hvals.
  destruct (mapM_result_total (encode_value p pad) vals) as [outs Houts].
  { eapply Forall_impl; [exact Hvals|]. intros v Hv.
    rewrite encode_value_eq by (by apply well_formed_is_jsstring). by eexists. }
  apply mapM_result_Ok in Houts.
  destruct (tensor_map_Done (encode_value p pad) t h vals Hdt Harr Hsize)
    as [Henc _].
  destruct (Henc outs Houts) as (t1 & h1 & Hrun1 & Hshape1 & Hdt1 & Hval1).
  assert (Forall2 (λ o v, decode_value p o = Ok v) outs vals) as Hdec.
  { clear -Houts Hvals.
    induction Houts as [|v o vals outs Hv _ IH]; [constructor|].
    apply Forall_cons in Hvals as [Hwf Hvals]. constructor; [|by apply IH].
    pose proof (decode_encode_value p p pad v Hwf) as H. by rewrite Hv in H. }
  destruct (tensor_map_Done (decode_value p) t1 h1 outs) as [Hdone _].
  { by rewrite Hdt1. }
  { done. }
  { unfold size. rewrite Hshape1. fold (size t). rewrite Hsize.
    by eapply Forall2_length. }
  destruct (Hdone vals Hdec) as (t2 & h2 & Hrun2 & Hshape2 & _ & Hval2).
  exists t1, h1, t2, h2. split_and!; try done. by rewrite Hshape2.
Qed.

(** * The claims of the specification *)

(** C1. Round trip: for every valid Unicode string [v] and either value of
    [pad], decoding the encoding of [v] returns [v], on every platform: for
    the value itself, and for [decodeBase64] applied to [encodeBase64] of the
    scalar tensor of [v]. The unpadded "SGVsbG8gVGVuc29yRmxvdy5qcyE" decodes
    to "Hello TensorFlow.js!". *)
Theorem decode_encode_roundtrip (p : Platform) (pad : bool) (v : jsstring) :
  well_formed v →
  encode_value p pad v ≫= decode_value p = Ok v ∧
  decode_value p (lit "SGVsbG8gVGVuc29yRmxvdy5qcyE") = Ok (lit "Hello TensorFlow.js!") ∧
  ∀ (t : Tensor) (h : heap),
    dtype t = string_ → shape t = [] → h !! dataId t = Some [JString v] →
    ∃ t1 h1 t2 h2,
      encodeBase64_ p t pad h = Done t1 h1 ∧
      decodeBase64_ p t1 h1 = Done t2 h2 ∧
      shape t2 = [] ∧ h2 !! dataId t2 = Some [JString v].
Proof.
  intros Hv. split_and!; [by apply decode_encode_value| |].
  { by destruct p; vm_compute. }
  intros t h Hdt Hshape Harr.
  destruct (decodeBase64_encodeBase64 p pad t h [v]) as (t1 & h1 & t2 & h2 & H);
    [done|done|by unfold size; rewrite Hshape|by constructor|].
  exists t1, h1, t2, h2. by rewrite <- Hshape.
Qed.

Lemma decode_encode_roundtrip_witness :
  well_formed [73; 32; 0x2764; 0xFE0F; 32; 0xD83C; 0xDDE8] ∧
  encode_value Browser false [73; 32; 0x2764; 0xFE0F; 32; 0xD83C; 0xDDE8]
    ≫= decode_value Browser = Ok [73; 32; 0x2764; 0xFE0F; 32; 0xD83C; 0xDDE8].
Proof.
  split; [reflexivity|].
  apply (decode_encode_roundtrip Browser false
           [73; 32; 0x2764; 0xFE0F; 32; 0xD83C; 0xDDE8]).
  reflexivity.
Defined.

(** C2 (as amended). For every valid Unicode string [v], [encodeBase64]
    computes of it: the UTF-8 bytes of [v], in standard Base64 of RFC 4648 with
    [=] padding, with [+] replaced by [-] and [/] by [_], and without the
    trailing [=] when [pad] is false. *)
Theorem encode_value_refines_spec (p : Platform) (pad : bool) (v : jsstring) :
  well_formed v → encode_value p pad v = Ok (spec_encode_one pad v).
Proof.
  intros Hwf. pose proof (well_formed_is_jsstring v Hwf) as Hv.
  pose proof (utf8_bytes_bytes v Hv) as Hb.
  rewrite encode_value_eq, platform_bytes_utf8 by done. f_equal.
  unfold spec_encode_one. cbn zeta.
  rewrite spec_url_safe_toUrlSafe, rfc4648_encode_base64 by done.
  rewrite base64_encode_split, toUrlSafe_app.
  rewrite (toUrlSafe_padding (base64_padding _)) by apply base64_padding_cases.
  destruct pad; [done|]. rewrite app_nil_r.
  rewrite strip_trailing_padding_app; [done| |apply base64_padding_cases].
  by apply toUrlSafe_not_EQ, base64_body_not_EQ.
Qed.

Lemma encode_value_refines_spec_witness :
  well_formed [0x4F60; 0x597D; 44; 32; 0x4E16; 0x754C] ∧
  encode_value LegacyNode false [0x4F60; 0x597D; 44; 32; 0x4E16; 0x754C] =
  Ok (spec_encode_one false [0x4F60; 0x597D; 44; 32; 0x4E16; 0x754C]).
Proof.
  split; [reflexivity|].
  apply (encode_value_refines_spec LegacyNode false
           [0x4F60; 0x597D; 44; 32; 0x4E16; 0x754C]).
  reflexivity.
Defined.

(** C2 fails as it is stated, for every input string: on a string with an
    unpaired surrogate [Buffer.from] writes U+FFFD, so that the Node.js path
    encodes other bytes than those of the byte-length rule, and other bytes
    than the [btoa] path. *)
Lemma encode_value_unpaired_surrogate :
  is_jsstring [0xD800] ∧
  encode_value LegacyNode false [0xD800] = Ok (lit "77-9") ∧
  Ok (spec_encode_one false [0xD800]) = Ok (lit "7aCA") ∧
  encode_value Browser false [0xD800] = Ok (lit "7aCA") ∧
  ¬ (∀ (p : Platform) (pad : bool) (v : jsstring),
       is_jsstring v → encode_value p pad v = Ok (spec_encode_one pad v)).
Proof.
  assert (is_jsstring [0xD800]) as Hs
    by (repeat constructor; unfold code_unit; lia).
  split_and!; [done|by vm_compute..|].
  intros H. specialize (H LegacyNode false [0xD800] Hs). by vm_compute in H.
Qed.

(** C5. For every string, the padded encoding is the unpadded encoding with
    [=] characters appended (at most two), and the unpadded encoding holds
    no [=]. *)
Theorem encode_padding_only_trailing (p : Platform) (s : jsstring) :
  is_jsstring s →
  ∃ (unpadded : jsstring) (k : nat),
    encode_value p false s = Ok unpadded ∧
    encode_value p true s = Ok (unpadded ++ replicate k EQ) ∧
    (k ≤ 2)%nat ∧ (EQ ∉ unpadded).
Proof.
  intros Hs. rewrite !encode_value_eq by done.
  pose proof (platform_bytes_bytes p s Hs) as Hb.
  exists (toUrlSafe (base64_body (platform_bytes p s))).
  assert (EQ ∉ toUrlSafe (base64_body (platform_bytes p s))) as Hne.
  { intros Hin.
    pose proof (toUrlSafe_not_EQ _ (base64_body_not_EQ _ Hb)) as Hall.
    rewrite Forall_forall in Hall. by apply (Hall EQ). }
  destruct (base64_padding_cases (platform_bytes p s)) as [->|[->| ->]].
  - exists 0%nat. cbn [replicate]. rewrite !app_nil_r. split_and!; [done|done|lia|done].
  - exists 1%nat. split_and!; [by rewrite app_nil_r|done|lia|done].
  - exists 2%nat. split_and!; [by rewrite app_nil_r|done|lia|done].
Qed.

Lemma encode_padding_only_trailing_witness :
  is_jsstring [0xD834; 0xDF06] ∧
  ∃ (unpadded : jsstring) (k : nat),
    encode_value LegacyNode false [0xD834; 0xDF06] = Ok unpadded ∧
    encode_value LegacyNode true [0xD834; 0xDF06] = Ok (unpadded ++ replicate k EQ) ∧
    (k ≤ 2)%nat ∧ (EQ ∉ unpadded).
Proof.
  assert (is_jsstring [0xD834; 0xDF06]) as Hs
    by (repeat constructor; unfold code_unit; lia).
  split; [exact Hs|].
  exact (encode_padding_only_trailing LegacyNode [0xD834; 0xDF06] Hs).
Defined.

(** C6. For every string and either value of [pad], the encoding exists and
    holds neither [+] (43) nor [/] (47). *)
Theorem encode_url_safe (p : Platform) (pad : bool) (s : jsstring) :
  is_jsstring s →
  ∃ out, encode_value p pad s = Ok out ∧ (43 ∉ out) ∧ (47 ∉ out).
Proof.
  intros Hs. rewrite encode_value_eq by done. eexists. split; [done|].
  pose proof (toUrlSafe_url_safe (base64_body (platform_bytes p s))) as [H43 H47].
  assert (Forall (λ c, c = EQ)
            (if pad then base64_padding (platform_bytes p s) else [])) as Hpad.
  { destruct pad; [|constructor].
    destruct (base64_padding_cases (platform_bytes p s)) as [->|[->| ->]];
      by repeat constructor. }
  rewrite Forall_forall in Hpad.
  split; intros Hin; apply elem_of_app in Hin as [Hin|Hin]; try done;
    by apply Hpad in Hin.
Qed.

Lemma encode_url_safe_witness :
  is_jsstring [73; 32; 0x2764; 0xFE0F; 32; 0xD83C; 0xDDE8; 0xD83C; 0xDDFB] ∧
  ∃ out,
    encode_value Browser true
      [73; 32; 0x2764; 0xFE0F; 32; 0xD83C; 0xDDE8; 0xD83C; 0xDDFB] = Ok out ∧
    (43 ∉ out) ∧ (47 ∉ out).
Proof.
  assert (is_jsstring [73; 32; 0x2764; 0xFE0F; 32; 0xD83C; 0xDDE8; 0xD83C; 0xDDFB])
    as Hs by (repeat constructor; unfold code_unit; lia).
  split; [exact Hs|].
  exact (encode_url_safe Browser true _ Hs).
Defined.

(** C7. The literal test vectors: "Hello TensorFlow.js!" without padding
    gives "SGVsbG8gVGVuc29yRmxvdy5qcyE", the code point U+1D306 (four UTF-8
    bytes) without padding gives "8J2Mhg", and the empty string gives the
    empty string. *)
Theorem encode_test_vectors (p : Platform) :
  encode_value p false (lit "Hello TensorFlow.js!") =
    Ok (lit "SGVsbG8gVGVuc29yRmxvdy5qcyE") ∧
  encode_value p false [0xD834; 0xDF06] = Ok (lit "8J2Mhg") ∧
  ∀ pad, encode_value p pad [] = Ok [].
Proof. split_and!; [..|intros pad]; by destruct p; try destruct pad; vm_compute. Qed.

(** C8. On every valid Unicode string and for either value of [pad], the
    path of [Buffer] and the path of [utf16ToUtf8Multibyte] and [btoa]
    compute the same encoding: the same Base64 before the URL-safe
    substitution, hence the same value on any two platforms. *)
Theorem encode_paths_agree (p q : Platform) (pad : bool) (v : jsstring) :
  well_formed v →
  btoa (mjoin (utf16ToUtf8Multibyte <$> Array_from v)) =
    Ok (Buffer_toString_base64 (Buffer_from v)) ∧
  encode_value p pad v = encode_value q pad v.
Proof.
  intros Hwf. pose proof (well_formed_is_jsstring v Hwf) as Hv. split.
  - rewrite manual_utf8, Buffer_from_utf8 by done.
    unfold btoa. by rewrite forallb_is_byte by (by apply utf8_bytes_bytes).
  - by rewrite !encode_value_eq, !platform_bytes_utf8.
Qed.

Lemma encode_paths_agree_witness :
  well_formed [0xE0; 0x3B2; 0xC7; 100; 0xE9; 102; 0xD834; 0xDF06] ∧
  encode_value LegacyNode true [0xE0; 0x3B2; 0xC7; 100; 0xE9; 102; 0xD834; 0xDF06] =
  encode_value Browser true [0xE0; 0x3B2; 0xC7; 100; 0xE9; 102; 0xD834; 0xDF06].
Proof.
  split; [reflexivity|].
  apply (encode_paths_agree LegacyNode Browser true
           [0xE0; 0x3B2; 0xC7; 100; 0xE9; 102; 0xD834; 0xDF06]).
  reflexivity.
Defined.

(** C10. [fromUrlSafe] maps [-] to [+] and [_] to [/] and leaves every other
    character, [+] and [/] among them, as it is; so a string and its
    URL-safe form decode alike, and the standard and the URL-safe Base64 of
    the bytes of a valid Unicode string both decode to that string. *)
Theorem decode_standard_alphabet (p : Platform) (v : jsstring) :
  well_formed v →
  (∀ s, fromUrlSafe s =
        (λ u, if u =? 45 then 43 else if u =? 95 then 47 else u) <$> s) ∧
  (∀ s, decode_value p (toUrlSafe s) = decode_value p s) ∧
  decode_value p (base64_encode (utf8_bytes v)) = Ok v ∧
  decode_value p (toUrlSafe (base64_encode (utf8_bytes v))) = Ok v.
Proof.
  intros Hwf.
  assert (∀ s, decode_value p (toUrlSafe s) = decode_value p s) as Hurl.
  { intros s. unfold decode_value.
    assert (fromUrlSafe (toUrlSafe s) = fromUrlSafe s) as ->; [|done].
    rewrite !fromUrlSafe_map, toUrlSafe_map, <- list_fmap_compose.
    apply list_fmap_ext. intros _ u _. simpl.
    destruct (Z.eqb_spec u 43) as [->|]; [done|].
    by destruct (Z.eqb_spec u 47) as [->|]. }
  split_and!; [apply fromUrlSafe_map|done| |].
  - rewrite <- Hurl.
    pose proof (decode_encode_value p p true v Hwf) as H.
    rewrite encode_value_eq, platform_bytes_utf8 in H
      by (done || by apply well_formed_is_jsstring).
    cbn [mbind result_bind] in H.
    rewrite base64_encode_split, toUrlSafe_app.
    by rewrite (toUrlSafe_padding (base64_padding _)) by apply base64_padding_cases.
  - pose proof (decode_encode_value p p true v Hwf) as H.
    rewrite encode_value_eq, platform_bytes_utf8 in H
      by (done || by apply well_formed_is_jsstring).
    cbn [mbind result_bind] in H.
    rewrite base64_encode_split, toUrlSafe_app.
    by rewrite (toUrlSafe_padding (base64_padding _)) by apply base64_padding_cases.
Qed.

Lemma decode_standard_alphabet_witness :
  well_formed [73; 32; 0x2764; 0xFE0F; 32; 0xD83C; 0xDDE8; 0xD83C; 0xDDFB] ∧
  base64_encode (utf8_bytes [73; 32; 0x2764; 0xFE0F; 32; 0xD83C; 0xDDE8; 0xD83C; 0xDDFB])
    = lit "SSDinaTvuI8g8J+HqPCfh7s=" ∧
  decode_value Browser (lit "SSDinaTvuI8g8J+HqPCfh7s=") =
    Ok [73; 32; 0x2764; 0xFE0F; 32; 0xD83C; 0xDDE8; 0xD83C; 0xDDFB].
Proof.
  split; [reflexivity|]. split; [reflexivity|].
  change (lit "SSDinaTvuI8g8J+HqPCfh7s=") with
    (base64_encode
       (utf8_bytes [73; 32; 0x2764; 0xFE0F; 32; 0xD83C; 0xDDE8; 0xD83C; 0xDDFB])).
  apply (decode_standard_alphabet Browser
           [73; 32; 0x2764; 0xFE0F; 32; 0xD83C; 0xDDE8; 0xD83C; 0xDDFB]).
  reflexivity.
Defined.

(** C3 (as amended). What [decodeBase64] rejects, value by value. Where
    [Buffer] is used ([runningInNode] true) no value is rejected. Where
    [atob] is used, a value that after the URL-safe reversal is not Base64
    for [atob] ([forgiving_base64] false, as for every value that holds a
    character that is not of the alphabet, not [=] and not white space) is
    refused with [InvalidCharacterError]; a value that is Base64 and whose
    bytes hold four bytes in a row that [multibyteSeq] matches and that
    stand for a number above 0x10FFFF is refused with [RangeError]; every
    other value is decoded, whether its bytes are UTF-8 or not. When the
    values before a refused value decode, [decodeBase64] throws the
    exception of that value and returns no tensor. *)
Theorem decodeBase64_rejection (p : Platform) (t : Tensor) (h : heap)
    (pre post : list jsstring) (s : jsstring) :
  dtype t = string_ →
  h !! dataId t = Some (JString <$> (pre ++ s :: post)) →
  Forall (λ x, ∃ y, decode_value p x = Ok y) pre →
  (runningInNode p = true → ∃ y, decode_value p s = Ok y) ∧
  (runningInNode p = false → forgiving_base64 (fromUrlSafe s) = false →
     decode_value p s = Throw InvalidCharacterError ∧
     ∃ h', decodeBase64_ p t h = Raise InvalidCharacterError h') ∧
  (runningInNode p = false → forgiving_base64 (fromUrlSafe s) = true →
     ∃ bytes, atob (fromUrlSafe s) = Ok bytes ∧
       (has_out_of_range bytes = true →
          decode_value p s = Throw RangeError ∧
          ∃ h', decodeBase64_ p t h = Raise RangeError h') ∧
       (has_out_of_range bytes = false → ∃ y, decode_value p s = Ok y)) ∧
  (∀ c, c ∈ fromUrlSafe s → base64_index c = None → c ≠ EQ →
        is_ascii_whitespace c = false →
        forgiving_base64 (fromUrlSafe s) = false).
Proof.
  intros Hdt Harr Hpre.
  assert (∀ e, decode_value p s = Throw e →
               ∃ h', decodeBase64_ p t h = Raise e h') as Hfail.
  { intros e He. rewrite decodeBase64_tensor_map.
    by eapply tensor_map_fail_fast. }
  pose proof (atob_forgiving_base64 (fromUrlSafe s)) as Hatob.
  split_and!.
  - intros Hp. unfold decode_value. rewrite Hp. by eexists.
  - intros Hp Hvalid. rewrite Hvalid in Hatob.
    assert (decode_value p s = Throw InvalidCharacterError) as Hs
      by (unfold decode_value; by rewrite Hp, Hatob).
    split; [done|by apply Hfail].
  - intros Hp Hvalid. rewrite Hvalid in Hatob. destruct Hatob as [bytes Hbytes].
    exists bytes. split; [done|].
    pose proof (replace_multibyteSeq_result bytes) as Hscan.
    assert (decode_value p s =
            replace_regex multibyteSeq utf8MultibyteToUtf16 bytes) as Hs
      by (unfold decode_value; by rewrite Hp, Hbytes).
    split; intros Hrange; rewrite Hrange in Hscan; rewrite Hs.
    + split; [done|]. apply Hfail. by rewrite Hs.
    + done.
  - intros c Hc Hidx Hne Hws.
    pose proof (atob_invalid_character c _ Hc Hidx Hne Hws) as Hthrow.
    destruct (forgiving_base64 (fromUrlSafe s)); [|done].
    destruct Hatob as [bytes Hbytes]. by rewrite Hbytes in Hthrow.
Qed.

Lemma decodeBase64_rejection_witness :
  (∃ h', decodeBase64_ Browser (mkTensor [2]%nat string_ 1%positive)
           {[ 1%positive := JString <$> [lit "8J2Mhg"; lit "QUJD="] ]} =
         Raise InvalidCharacterError h') ∧
  (∃ h', decodeBase64_ Browser (mkTensor [2]%nat string_ 1%positive)
           {[ 1%positive := JString <$> [lit "8J2Mhg"; lit "9JCAgA"] ]} =
         Raise RangeError h').
Proof.
  split.
  - refine (proj2 (proj1 (proj2
      (decodeBase64_rejection Browser (mkTensor [2]%nat string_ 1%positive)
         {[ 1%positive := JString <$> [lit "8J2Mhg"; lit "QUJD="] ]}
         [lit "8J2Mhg"] [] (lit "QUJD=") _ _ _)) _ _)).
    + reflexivity.
    + reflexivity.
    + constructor; [|constructor]. eexists. vm_compute. reflexivity.
    + reflexivity.
    + reflexivity.
  - destruct (decodeBase64_rejection Browser (mkTensor [2]%nat string_ 1%positive)
                {[ 1%positive := JString <$> [lit "8J2Mhg"; lit "9JCAgA"] ]}
                [lit "8J2Mhg"] [] (lit "9JCAgA")) as (_ & _ & Hvalid & _).
    + reflexivity.
    + reflexivity.
    + constructor; [|constructor]. eexists. vm_compute. reflexivity.
    + destruct Hvalid as (bytes & Hbytes & Hthrow & _).
      * reflexivity.
      * reflexivity.
      * apply Hthrow. vm_compute in Hbytes. injection Hbytes as <-. reflexivity.
Defined.

(** C3 fails as it is stated. The byte 0x80 alone is the UTF-8 of no
    string, and "gA" is its Base64: on the [atob] path [decodeBase64]
    returns the code unit U+0080 for it and throws nothing. On the [Buffer]
    path "g*A", with a character that is not of the alphabet, is decoded
    with that character skipped, to U+FFFD. *)
Lemma decodeBase64_accepts_malformed :
  (¬ ∃ v, utf8_bytes v = [0x80]) ∧
  atob (fromUrlSafe (lit "gA")) = Ok [0x80] ∧
  observed (decodeBase64_ Browser (mkTensor [1]%nat string_ 1%positive)
              {[ 1%positive := [JString (lit "gA")] ]}) =
    Ok ([1]%nat, string_, [JString [0x80]]) ∧
  base64_index 42 = None ∧
  observed (decodeBase64_ LegacyNode (mkTensor [1]%nat string_ 1%positive)
              {[ 1%positive := [JString (lit "g*A")] ]}) =
    Ok ([1]%nat, string_, [JString [0xFFFD]]).
Proof.
  split_and!; [|by vm_compute..].
  intros [v Hv]. unfold utf8_bytes in Hv.
  destruct (code_points v) as [|cp cps]; [done|].
  rewrite fmap_cons, mjoin_cons in Hv. unfold utf8_code_point in Hv.
  destruct (Z.ltb_spec cp 0x80); [injection Hv as Hv; lia|].
  destruct (Z.ltb_spec cp 0x800); [injection Hv as Hv; div_lia|].
  destruct (Z.ltb_spec cp 0x10000); injection Hv as Hv; div_lia.
Qed.

(** C4. On a tensor of strings of any shape, [encodeBase64] returns a tensor
    of the same shape whose values are, index by index, [encode_value] of
    the values of the input; [decodeBase64] returns exactly when every value
    decodes, and then a tensor of the same shape whose values are, index by
    index, [decode_value] of the values of the input. *)
Theorem codec_elementwise (p : Platform) (pad : bool) (t : Tensor) (h : heap)
    (vals : list jsstring) :
  dtype t = string_ →
  h !! dataId t = Some (JString <$> vals) →
  size t = length vals →
  Forall is_jsstring vals →
  (∃ t' h' outs,
     encodeBase64_ p t pad h = Done t' h' ∧ shape t' = shape t ∧
     h' !! dataId t' = Some (JString <$> outs) ∧ length outs = length vals ∧
     Forall2 (λ v o, encode_value p pad v = Ok o) vals outs) ∧
  (∀ outs, Forall2 (λ v o, decode_value p v = Ok o) vals outs →
     ∃ t' h', decodeBase64_ p t h = Done t' h' ∧ shape t' = shape t ∧
              h' !! dataId t' = Some (JString <$> outs)) ∧
  (∀ t' h', decodeBase64_ p t h = Done t' h' →
     ∃ outs, shape t' = shape t ∧ h' !! dataId t' = Some (JString <$> outs) ∧
             length outs = length vals ∧
             Forall2 (λ v o, decode_value p v = Ok o) vals outs).
Proof.
  intros Hdt Harr Hsize Hvals.
  pose proof (tensor_map_Done (encode_value p pad) t h vals Hdt Harr Hsize)
    as [Henc1 Henc2].
  pose proof (tensor_map_Done (decode_value p) t h vals Hdt Harr Hsize)
    as [Hdec1 Hdec2].
  split_and!.
  - destruct (mapM_result_total (encode_value p pad) vals) as [outs Houts].
    { eapply Forall_impl; [exact Hvals|]. intros v Hv.
      rewrite encode_value_eq by done. by eexists. }
    apply mapM_result_Ok in Houts.
    destruct (Henc1 outs Houts) as (t' & h' & Hrun & Hshape & _ & Hval).
    exists t', h', outs. rewrite encodeBase64_tensor_map.
    split_and!; try done. symmetry. by eapply Forall2_length.
  - intros outs Houts.
    destruct (Hdec1 outs Houts) as (t' & h' & Hrun & Hshape & _ & Hval).
    by exists t', h'.
  - intros t' h' Hrun.
    destruct (Hdec2 t' h' Hrun) as (outs & ? & _ & ? & ? & ?). by exists outs.
Qed.

Lemma codec_elementwise_witness :
  ∃ t' h' outs,
    encodeBase64_ Browser test_tensor2d false test_heap = Done t' h' ∧
    shape t' = shape test_tensor2d ∧
    h' !! dataId t' = Some (JString <$> outs) ∧ length outs = length txtArr ∧
    Forall2 (λ v o, encode_value Browser false v = Ok o) txtArr outs.
Proof.
  apply (codec_elementwise Browser false test_tensor2d test_heap txtArr).
  - reflexivity.
  - reflexivity.
  - reflexivity.
  - apply (bool_decide_unpack _). vm_compute. exact I.
Defined.

(** C9. A call of [encodeBase64] or of [decodeBase64] leaves every array of
    the heap, the one of its input among them, as it was; the tensor it
    returns is on a newly allocated array; and the outcome is a function of
    the input alone, the same on the heap a first call has left. *)
Theorem codec_respects_frame (p : Platform) (pad : bool) (t : Tensor) (h : heap)
    (arr : list jsval) :
  h !! dataId t = Some arr →
  respects_frame (λ t, encodeBase64_ p t pad) t h arr ∧
  respects_frame (decodeBase64_ p) t h arr.
Proof.
  intros Harr.
  assert (∀ f, respects_frame (tensor_map f) t h arr) as H.
  { intros f.
    destruct (tensor_map_frame f t h arr Harr) as (Hold & Hnew & Hstate).
    split_and!; [done..|].
    apply Hstate. rewrite Hold; [done|]. apply elem_of_dom. by eexists. }
  split; [apply (H (encode_value p pad))|apply (H (decode_value p))].
Qed.

Lemma codec_respects_frame_witness :
  respects_frame (λ t, encodeBase64_ LegacyNode t true) test_tensor3d test_heap
    (JString <$> txtArr) ∧
  respects_frame (decodeBase64_ LegacyNode) test_tensor3d test_heap
    (JString <$> txtArr).
Proof.
  apply (codec_respects_frame LegacyNode true test_tensor3d test_heap
           (JString <$> txtArr)).
  reflexivity.
Defined.

(** * Further properties of the code *)

(** ** The characters of [Array.from] and their packing *)

Lemma Array_from_chars s : is_jsstring s → Forall is_char (Array_from s).
Proof.
  induction s as [|u t Hu IH|u v t Hu Hv IH] using code_point_ind; intros Hs.
  - constructor.
  - apply Forall_cons in Hs as [Hcu Ht].
    destruct (Array_from_unit u t Hu) as [-> _].
    constructor; [|by apply IH]. left. by exists u.
  - apply Forall_cons in Hs as [_ Ht]. apply Forall_cons in Ht as [_ Ht].
    destruct (Array_from_pair u v t Hu Hv) as [-> _].
    constructor; [|by apply IH]. right. by exists u, v.
Qed.

Lemma pair_code_point_range u v :
  is_lead_surrogate u = true → is_trail_surrogate v = true →
  0x10000 ≤ (u - 0xD800) * 0x400 + (v - 0xDC00) + 0x10000 < 0x110000.
Proof.
  intros Hu%is_lead_surrogate_spec Hv%is_trail_surrogate_spec. lia.
Qed.

(** The packing of a character and the code point it packs. *)
Lemma utf16ToUtf8Multibyte_char char :
  is_char char →
  ∃ cp, is_code_point cp ∧ utf16ToUtf8Multibyte char = utf8_code_point cp ∧
        code_point_units cp = char.
Proof.
  intros [(u & -> & Hu)|(u & v & -> & Hu & Hv)].
  - exists u. rewrite utf16ToUtf8Multibyte_unit by done.
    unfold code_unit in Hu.
    split_and!; [unfold is_code_point; lia|done|].
    unfold code_point_units. destruct (Z.leb_spec u 0xFFFF); [done|lia].
  - pose proof (pair_code_point_range u v Hu Hv) as Hcp.
    exists ((u - 0xD800) * 0x400 + (v - 0xDC00) + 0x10000).
    rewrite utf16ToUtf8Multibyte_pair by done.
    split_and!; [unfold is_code_point; lia|done|].
    apply is_lead_surrogate_spec in Hu. apply is_trail_surrogate_spec in Hv.
    unfold code_point_units.
    destruct (Z.leb_spec ((u - 0xD800) * 0x400 + (v - 0xDC00) + 0x10000) 0xFFFF);
      [lia|].
    f_equal; [|f_equal]; div_lia.
Qed.

(** The scan of [multibyteSeq] at the bytes of a code point above U+007F. *)
Lemma multibyteSeq_code_point cp rest :
  is_code_point cp → 0x80 ≤ cp →
  regex_exec multibyteSeq (utf8_code_point cp ++ rest) =
  Some (length (utf8_code_point cp)).
Proof.
  unfold is_code_point, utf8_code_point. intros Hcp Hge.
  destruct (Z.ltb_spec cp 0x80); [lia|].
  destruct (Z.ltb_spec cp 0x800); [apply multibyteSeq_two; div_lia|].
  destruct (Z.ltb_spec cp 0x10000);
    [apply multibyteSeq_three; div_lia|apply multibyteSeq_four; div_lia].
Qed.

Lemma utf8MultibyteToUtf16_code_point cp :
  is_code_point cp →
  utf8MultibyteToUtf16 (utf8_code_point cp) = Ok (code_point_units cp).
Proof.
  intros Hcp. pose proof Hcp as Hr. unfold is_code_point in Hr.
  unfold utf8_code_point.
  destruct (Z.ltb_spec cp 0x80).
  { unfold code_point_units. by destruct (Z.leb_spec cp 0xFFFF); [|lia]. }
  destruct (Z.ltb_spec cp 0x800).
  { by rewrite utf8MultibyteToUtf16_two, fromCodePoint_units. }
  destruct (Z.ltb_spec cp 0x10000).
  { by rewrite utf8MultibyteToUtf16_three, fromCodePoint_units. }
  by rewrite utf8MultibyteToUtf16_four, fromCodePoint_units by (done || lia).
Qed.

(** X1. [utf16ToUtf8Multibyte] makes of every character that [Array.from]
    yields one to four code units, all of them bytes, so that [btoa] accepts
    them; one unit is the character itself, below U+0080; two units or more
    are matched as a whole by [multibyteSeq] in front of any string. *)
Theorem utf16ToUtf8Multibyte_bytes (s char : jsstring) :
  is_jsstring s → char ∈ Array_from s →
  Forall byte (utf16ToUtf8Multibyte char) ∧
  (1 ≤ length (utf16ToUtf8Multibyte char) ≤ 4)%nat ∧
  (length (utf16ToUtf8Multibyte char) = 1%nat →
     utf16ToUtf8Multibyte char = char ∧ Forall (λ u, 0 ≤ u < 0x80) char) ∧
  ((1 < length (utf16ToUtf8Multibyte char))%nat →
     ∀ rest, regex_exec multibyteSeq (utf16ToUtf8Multibyte char ++ rest) =
             Some (length (utf16ToUtf8Multibyte char))).
Proof.
  intros Hs Hin.
  pose proof (Array_from_chars s Hs) as Hall. rewrite Forall_forall in Hall.
  destruct (utf16ToUtf8Multibyte_char char (Hall _ Hin)) as (cp & Hcp & -> & Hunits).
  split; [by apply utf8_code_point_bytes|].
  pose proof Hcp as Hr. unfold is_code_point in Hr.
  assert (cp < 0x80 → utf8_code_point cp = [cp] ∧ char = [cp]) as Hascii.
  { intros Hlt. subst char. unfold utf8_code_point, code_point_units.
    destruct (Z.ltb_spec cp 0x80); [|lia]. by destruct (Z.leb_spec cp 0xFFFF); [|lia]. }
  destruct (decide (cp < 0x80)) as [Hlt|Hge].
  - destruct (Hascii Hlt) as [-> ->]. cbn [length]. split_and!; [lia|lia| |lia].
    intros _. split; [done|]. repeat constructor; lia.
  - assert (1 < length (utf8_code_point cp) ≤ 4)%nat as Hlen.
    { unfold utf8_code_point. destruct (Z.ltb_spec cp 0x80); [lia|].
      destruct (cp <? 0x800); [cbn; lia|]. destruct (cp <? 0x10000); cbn; lia. }
    split_and!; [lia|lia|lia|]. intros _ rest.
    apply multibyteSeq_code_point; [done|lia].
Qed.

Lemma utf16ToUtf8Multibyte_bytes_witness :
  regex_exec multibyteSeq (utf16ToUtf8Multibyte [0xD834; 0xDF06] ++ [65]) =
  Some (length (utf16ToUtf8Multibyte [0xD834; 0xDF06])).
Proof.
  assert (is_jsstring [65; 0xD834; 0xDF06]) as Hs
    by (repeat constructor; unfold code_unit; lia).
  assert ([0xD834; 0xDF06] ∈ Array_from [65; 0xD834; 0xDF06]) as Hin
    by (apply (bool_decide_unpack _); vm_compute; exact I).
  apply (utf16ToUtf8Multibyte_bytes [65; 0xD834; 0xDF06] [0xD834; 0xDF06] Hs Hin).
  vm_compute. lia.
Defined.

(** X2. [utf8MultibyteToUtf16] inverts [utf16ToUtf8Multibyte] on every
    character that [Array.from] yields, an unpaired surrogate included. *)
Theorem utf8MultibyteToUtf16_inverts (s char : jsstring) :
  is_jsstring s → char ∈ Array_from s →
  utf8MultibyteToUtf16 (utf16ToUtf8Multibyte char) = Ok char.
Proof.
  intros Hs Hin.
  pose proof (Array_from_chars s Hs) as Hall. rewrite Forall_forall in Hall.
  destruct (utf16ToUtf8Multibyte_char char (Hall _ Hin)) as (cp & Hcp & -> & <-).
  by apply utf8MultibyteToUtf16_code_point.
Qed.

Lemma utf8MultibyteToUtf16_inverts_witness :
  utf8MultibyteToUtf16 (utf16ToUtf8Multibyte [0xDC00]) = Ok [0xDC00].
Proof.
  assert (is_jsstring [0x3B2; 0xDC00]) as Hs
    by (repeat constructor; unfold code_unit; lia).
  assert ([0xDC00] ∈ Array_from [0x3B2; 0xDC00]) as Hin
    by (apply (bool_decide_unpack _); vm_compute; exact I).
  exact (utf8MultibyteToUtf16_inverts [0x3B2; 0xDC00] [0xDC00] Hs Hin).
Defined.

(** ** Round trips on strings that are not well formed *)

(** X3. Where [btoa] and [atob] are used, decoding the encoding of a string
    returns the string, whatever the string: an unpaired surrogate is packed
    as three bytes and unpacked again. *)
Theorem manual_roundtrip (p q : Platform) (pad : bool) (s : jsstring) :
  runningInNode p = false → runningInNode q = false → is_jsstring s →
  encode_value p pad s ≫= decode_value q = Ok s.
Proof.
  intros Hp Hq Hs. rewrite encode_value_eq by done. cbn [mbind result_bind].
  unfold platform_bytes. rewrite Hp.
  rewrite decode_value_base64;
    [|by apply utf8_bytes_bytes|destruct pad; [by right|by left]].
  rewrite Hq. by apply replace_multibyteSeq_utf8.
Qed.

Lemma manual_roundtrip_witness :
  encode_value Browser false [0xD800; 65; 0xDC00; 0x3B2]
    ≫= decode_value ModernNode = Ok [0xD800; 65; 0xDC00; 0x3B2].
Proof.
  apply (manual_roundtrip Browser ModernNode false [0xD800; 65; 0xDC00; 0x3B2]).
  - reflexivity.
  - reflexivity.
  - repeat constructor; unfold code_unit; lia.
Defined.

Lemma to_well_formed_unit u t :
  (∀ v t', t = v :: t' → is_lead_surrogate u && is_trail_surrogate v = false) →
  to_well_formed (u :: t) =
  (if is_lead_surrogate u || is_trail_surrogate u then 0xFFFD else u)
    :: to_well_formed t.
Proof.
  intros H. destruct t as [|v t']; [done|].
  cbn [to_well_formed]. by rewrite (H v t' eq_refl).
Qed.

Lemma to_well_formed_well_formed s : is_jsstring s → well_formed (to_well_formed s).
Proof.
  unfold well_formed.
  induction s as [|u t Hu IH|u v t Hu Hv IH] using code_point_ind; intros Hs.
  - done.
  - apply Forall_cons in Hs as [Hcu Ht]. rewrite to_well_formed_unit by done.
    unfold code_unit in Hcu.
    destruct (is_lead_surrogate u) eqn:Hl; cbn [orb].
    { change (well_formedb (to_well_formed t) = true). by apply IH. }
    destruct (is_trail_surrogate u) eqn:Htr.
    { change (well_formedb (to_well_formed t) = true). by apply IH. }
    cbn [well_formedb]. rewrite Hl, Htr, IH by done. unfold code_unitb.
    rewrite (proj2 (Z.leb_le 0 u)), (proj2 (Z.ltb_lt u 65536)) by lia. done.
  - apply Forall_cons in Hs as [_ Ht]. apply Forall_cons in Ht as [_ Ht].
    cbn [to_well_formed]. rewrite Hu, Hv. cbn [andb well_formedb].
    rewrite Hu, Hv. cbn [andb]. by apply IH.
Qed.

Lemma to_well_formed_id s : well_formed s → to_well_formed s = s.
Proof.
  induction 1 as [|u t Hcu Hu Hv _ IH|u v t Hu Hv _ IH] using well_formed_ind.
  - done.
  - rewrite to_well_formed_unit by (intros v t' _; by rewrite Hu).
    by rewrite Hu, Hv, IH.
  - cbn [to_well_formed]. by rewrite Hu, Hv, IH.
Qed.

(** [Buffer.from] writes the bytes of the well-formed string. *)
Lemma Buffer_from_to_well_formed s :
  is_jsstring s → Buffer_from s = Buffer_from (to_well_formed s).
Proof.
  induction s as [|u t Hu IH|u v t Hu Hv IH] using code_point_ind; intros Hs.
  - done.
  - apply Forall_cons in Hs as [Hcu Ht]. specialize (IH Ht).
    rewrite to_well_formed_unit by done. unfold code_unit in Hcu.
    destruct (is_lead_surrogate u) eqn:Hl; cbn [orb].
    { apply is_lead_surrogate_spec in Hl.
      change (Buffer_from (0xFFFD :: to_well_formed t))
        with ([0xEF; 0xBF; 0xBD] ++ Buffer_from (to_well_formed t)).
      rewrite <- IH. cbn [Buffer_from].
      destruct (Z.ltb_spec u 0x80); [lia|]. destruct (Z.ltb_spec u 0x800); [lia|].
      rewrite (proj2 (is_lead_surrogate_spec u)) by done.
      destruct t as [|v t']; [done|].
      specialize (Hu v t' eq_refl). cbn in Hu. by rewrite Hu. }
    destruct (is_trail_surrogate u) eqn:Htr.
    { apply is_trail_surrogate_spec in Htr.
      change (Buffer_from (0xFFFD :: to_well_formed t))
        with ([0xEF; 0xBF; 0xBD] ++ Buffer_from (to_well_formed t)).
      rewrite <- IH. cbn [Buffer_from]. rewrite Hl.
      destruct (Z.ltb_spec u 0x80); [lia|]. destruct (Z.ltb_spec u 0x800); [lia|].
      by rewrite (proj2 (is_trail_surrogate_spec u)). }
    cbn [Buffer_from]. rewrite Hl, Htr, IH. reflexivity.
  - apply Forall_cons in Hs as [_ Ht]. apply Forall_cons in Ht as [_ Ht].
    cbn [to_well_formed]. rewrite Hu, Hv. cbn [andb Buffer_from].
    rewrite Hu, Hv, IH by done. apply is_lead_surrogate_spec in Hu.
    destruct (Z.ltb_spec u 0x80); [lia|]. by destruct (Z.ltb_spec u 0x800); [lia|].
Qed.

(** X4. Where [Buffer] is used, decoding the encoding of a string returns
    the string with every unpaired surrogate replaced by U+FFFD, on whatever
    platform it is decoded; this is the string itself exactly when it is
    well formed. *)
Theorem buffer_roundtrip (p q : Platform) (pad : bool) (s : jsstring) :
  runningInNode p = true → is_jsstring s →
  encode_value p pad s ≫= decode_value q = Ok (to_well_formed s) ∧
  (to_well_formed s = s ↔ well_formed s).
Proof.
  intros Hp Hs.
  pose proof (to_well_formed_well_formed s Hs) as Hwf.
  split.
  - rewrite <- (decode_encode_value p q pad (to_well_formed s) Hwf).
    rewrite !encode_value_eq by (done || by apply well_formed_is_jsstring).
    unfold platform_bytes. rewrite Hp. by rewrite <- Buffer_from_to_well_formed.
  - split; [intros <-; done|apply to_well_formed_id].
Qed.

Lemma buffer_roundtrip_witness :
  encode_value LegacyNode true [0xD800; 65; 0xD834; 0xDF06; 0xDC00]
    ≫= decode_value LegacyNode = Ok [0xFFFD; 65; 0xD834; 0xDF06; 0xFFFD].
Proof.
  apply (buffer_roundtrip LegacyNode LegacyNode true
           [0xD800; 65; 0xD834; 0xDF06; 0xDC00]).
  - reflexivity.
  - repeat constructor; unfold code_unit; lia.
Defined.

(** X5. A valid Unicode string encoded on one platform decodes to itself on
    any other platform, with padding or without it. *)
Theorem cross_platform_roundtrip (p q : Platform) (pad : bool) (v : jsstring) :
  well_formed v → encode_value p pad v ≫= decode_value q = Ok v.
Proof.
  intros Hwf. pose proof (well_formed_is_jsstring v Hwf) as Hv.
  rewrite encode_value_eq, platform_bytes_utf8 by done. cbn [mbind result_bind].
  rewrite decode_value_base64;
    [|by apply utf8_bytes_bytes|destruct pad; [by right|by left]].
  destruct (runningInNode q);
    [by rewrite Buffer_toString_utf8|by apply replace_multibyteSeq_utf8].
Qed.

Lemma cross_platform_roundtrip_witness :
  encode_value LegacyNode true [0x4F60; 0x597D; 0xD83C; 0xDDE8]
    ≫= decode_value Browser = Ok [0x4F60; 0x597D; 0xD83C; 0xDDE8].
Proof.
  apply (cross_platform_roundtrip LegacyNode Browser true
           [0x4F60; 0x597D; 0xD83C; 0xDDE8]).
  reflexivity.
Defined.

(** X6. On valid Unicode strings the encoding is injective, across
    platforms and across the two values of [pad]: two strings with the same
    encoding are the same string. *)
Theorem encode_value_injective (p q : Platform) (pad1 pad2 : bool)
    (v1 v2 : jsstring) :
  well_formed v1 → well_formed v2 →
  encode_value p pad1 v1 = encode_value q pad2 v2 → v1 = v2.
Proof.
  intros H1 H2 Heq.
  pose proof (decode_encode_value p p pad1 v1 H1) as Hd1.
  pose proof (decode_encode_value q p pad2 v2 H2) as Hd2.
  rewrite Heq, Hd2 in Hd1. by injection Hd1.
Qed.

Lemma encode_value_injective_witness :
  encode_value Browser true [65; 0x3B2] = encode_value LegacyNode true [65; 0x3B2] ∧
  [65; 0x3B2] = [65; 0x3B2].
Proof.
  split; [reflexivity|].
  apply (encode_value_injective Browser LegacyNode true true [65; 0x3B2] [65; 0x3B2]);
    reflexivity.
Defined.

(** ** The alphabet and the length of the encoding *)

Lemma toUrlSafe_table_chars (s : jsstring) :
  Forall table_char s → Forall (λ c, url_safe_char c = true) (toUrlSafe s).
Proof.
  assert (Forall (λ c, url_safe_char
                         (if c =? 43 then 45 else if c =? 47 then 95 else c) = true)
            base64_table) as Htable
    by (apply (bool_decide_unpack _); by vm_compute).
  rewrite Forall_forall in Htable.
  intros Hs. rewrite toUrlSafe_map. apply Forall_fmap.
  eapply Forall_impl; [exact Hs|]. intros c (_ & _ & _ & _ & Hidx). cbn.
  apply Htable, index_of_elem. unfold base64_index in Hidx.
  destruct (index_of c base64_table); [by eexists|by destruct Hidx].
Qed.

(** X7. Every character of the encoding is of [A-Z a-z 0-9 - _], or is a
    [=] of the padding; without [pad] there is no [=]. *)
Theorem encode_alphabet (p : Platform) (pad : bool) (s : jsstring) :
  is_jsstring s →
  ∃ out, encode_value p pad s = Ok out ∧
         Forall (λ c, url_safe_char c = true ∨ (pad = true ∧ c = EQ)) out.
Proof.
  intros Hs. rewrite encode_value_eq by done. eexists. split; [done|].
  pose proof (platform_bytes_bytes p s Hs) as Hb.
  apply Forall_app. split.
  - eapply Forall_impl; [apply toUrlSafe_table_chars, base64_body_chars, Hb|].
    intros c Hc. by left.
  - destruct pad; [|constructor].
    destruct (base64_padding_cases (platform_bytes p s)) as [->|[->| ->]];
      repeat constructor; by right.
Qed.

Lemma encode_alphabet_witness :
  ∃ out, encode_value Browser true [0x3E; 0x3F; 0x3F; 0xFF] = Ok out ∧
         Forall (λ c, url_safe_char c = true ∨ (true = true ∧ c = EQ)) out.
Proof.
  apply (encode_alphabet Browser true [0x3E; 0x3F; 0x3F; 0xFF]).
  repeat constructor; unfold code_unit; lia.
Defined.

Lemma base64_body_length bytes :
  (length (base64_body bytes) = (4 * length bytes + 2) `div` 3 ∧
   length (base64_body bytes) + length (base64_padding bytes) =
   4 * ((length bytes + 2) `div` 3))%nat.
Proof.
  induction bytes as [| | |a b c l [IH1 IH2]] using list_ind3;
    [by vm_compute..|].
  cbn [base64_body base64_padding length app]. div_lia.
Qed.

(** X8. The length of the encoding of a valid Unicode string with [n] UTF-8
    bytes: four characters for every three bytes begun with [pad], and the
    [(4n + 2) / 3] characters that carry the bits without it. *)
Theorem encode_length (p : Platform) (s : jsstring) :
  well_formed s →
  ∃ padded unpadded,
    encode_value p true s = Ok padded ∧ encode_value p false s = Ok unpadded ∧
    (length padded = 4 * ((length (utf8_bytes s) + 2) `div` 3))%nat ∧
    (length unpadded = (4 * length (utf8_bytes s) + 2) `div` 3)%nat ∧
    (length s ≤ length (utf8_bytes s) ≤ 3 * length s)%nat.
Proof.
  intros Hwf. pose proof (well_formed_is_jsstring s Hwf) as Hs.
  rewrite !encode_value_eq, !platform_bytes_utf8 by done.
  destruct (base64_body_length (utf8_bytes s)) as [H1 H2].
  eexists _, _. split; [done|]. split; [done|]. split; [|split].
  - by rewrite length_app, toUrlSafe_length.
  - by rewrite app_nil_r, toUrlSafe_length.
  - clear H1 H2 Hs. unfold utf8_bytes.
    induction Hwf as [|u t Hcu Hu Hv _ IH|u v t Hu Hv _ IH] using well_formed_ind.
    + cbn. lia.
    + rewrite code_points_cons_unit, fmap_cons, mjoin_cons, length_app by done.
      set (n := length (mjoin (utf8_code_point <$> code_points t))) in *.
      cbn [length]. unfold utf8_code_point.
      destruct (u <? 0x80); [cbn [length]; lia|].
      destruct (u <? 0x800); [cbn [length]; lia|].
      unfold code_unit in Hcu.
      destruct (Z.ltb_spec u 0x10000); cbn [length]; lia.
    + destruct (Array_from_pair u v t Hu Hv) as [_ ->].
      rewrite fmap_cons, mjoin_cons, length_app.
      set (n := length (mjoin (utf8_code_point <$> code_points t))) in *.
      cbn [length].
      pose proof (pair_code_point_range u v Hu Hv) as Hcp.
      unfold utf8_code_point.
      destruct (Z.ltb_spec ((u - 0xD800) * 0x400 + (v - 0xDC00) + 0x10000) 0x80);
        [lia|].
      destruct (Z.ltb_spec ((u - 0xD800) * 0x400 + (v - 0xDC00) + 0x10000) 0x800);
        [lia|].
      destruct (Z.ltb_spec ((u - 0xD800) * 0x400 + (v - 0xDC00) + 0x10000) 0x10000);
        [lia|].
      cbn [length]. lia.
Qed.

Lemma encode_length_witness :
  ∃ padded unpadded,
    encode_value Browser true sample_string = Ok padded ∧
    encode_value Browser false sample_string = Ok unpadded ∧
    (length padded = 4 * ((length (utf8_bytes sample_string) + 2) `div` 3))%nat ∧
    (length unpadded = (4 * length (utf8_bytes sample_string) + 2) `div` 3)%nat ∧
    (length sample_string ≤ length (utf8_bytes sample_string)
       ≤ 3 * length sample_string)%nat.
Proof. apply (encode_length Browser sample_string). reflexivity. Defined.

(** ** Strings of ASCII characters *)

Lemma utf8_bytes_ascii s : Forall (λ u, 0 ≤ u < 0x80) s → utf8_bytes s = s ∧ well_formed s.
Proof.
  unfold utf8_bytes, well_formed.
  induction 1 as [|u t Hu _ [IH1 IH2]]; [done|].
  assert (is_lead_surrogate u = false) as Hl.
  { apply not_true_iff_false. intros H%is_lead_surrogate_spec. lia. }
  assert (is_trail_surrogate u = false) as Ht.
  { apply not_true_iff_false. intros H%is_trail_surrogate_spec. lia. }
  rewrite code_points_cons_unit, fmap_cons, mjoin_cons, IH1 by done. split.
  - unfold utf8_code_point. by destruct (Z.ltb_spec u 0x80); [|lia].
  - cbn [well_formedb]. rewrite Hl, Ht, IH2. unfold code_unitb.
    rewrite (proj2 (Z.leb_le 0 u)), (proj2 (Z.ltb_lt u 65536)) by lia. done.
Qed.

(** X9. On a string of ASCII characters the conversion to UTF-8 changes
    nothing, on either path, and the encoding is the URL-safe form of the
    Base64 of the code units themselves. *)
Theorem encode_ascii (p : Platform) (s : jsstring) :
  Forall (λ u, 0 ≤ u < 0x80) s →
  mjoin (utf16ToUtf8Multibyte <$> Array_from s) = s ∧
  Buffer_from s = s ∧
  encode_value p true s = Ok (toUrlSafe (base64_encode s)) ∧
  encode_value p false s = Ok (replace_char EQ [] (toUrlSafe (base64_encode s))).
Proof.
  intros Hascii. destruct (utf8_bytes_ascii s Hascii) as [Hbytes Hwf].
  pose proof (well_formed_is_jsstring s Hwf) as Hs.
  rewrite manual_utf8, Buffer_from_utf8, Hbytes by done.
  split_and!; [done|done| |].
  - rewrite encode_value_eq, platform_bytes_utf8, Hbytes by done.
    rewrite base64_encode_split, toUrlSafe_app.
    by rewrite (toUrlSafe_padding (base64_padding _)) by apply base64_padding_cases.
  - rewrite encode_value_eq, platform_bytes_utf8, Hbytes by done.
    rewrite base64_encode_split, toUrlSafe_app, app_nil_r.
    rewrite (toUrlSafe_padding (base64_padding _)) by apply base64_padding_cases.
    rewrite remove_EQ_app; [done| |apply base64_padding_cases].
    apply toUrlSafe_not_EQ, base64_body_not_EQ.
    rewrite <- Hbytes. by apply utf8_bytes_bytes.
Qed.

Lemma encode_ascii_witness :
  encode_value LegacyNode true (lit "a?b>") = Ok (toUrlSafe (base64_encode (lit "a?b>"))).
Proof.
  apply (encode_ascii LegacyNode (lit "a?b>")).
  apply (bool_decide_unpack _). vm_compute. exact I.
Defined.

(** ** What the scan of [decodeBase64_] makes of bytes that are not UTF-8 *)

(** What [decodeBase64_] makes of the URL-safe Base64 of a byte sequence. *)
Lemma decode_value_encode p bytes :
  Forall byte bytes →
  decode_value p (toUrlSafe (base64_encode bytes)) =
  if runningInNode p then Ok (Buffer_toString bytes)
  else replace_regex multibyteSeq utf8MultibyteToUtf16 bytes.
Proof.
  intros Hb. rewrite base64_encode_split, toUrlSafe_app.
  rewrite (toUrlSafe_padding (base64_padding _)) by apply base64_padding_cases.
  apply decode_value_base64; [done|by right].
Qed.

(** Code units below 0xC0 begin no match. *)
Lemma replace_multibyteSeq_low pre s :
  Forall (λ b, b < 0xC0) pre →
  replace_regex multibyteSeq utf8MultibyteToUtf16 (pre ++ s) =
  r ← replace_regex multibyteSeq utf8MultibyteToUtf16 s; Ok (pre ++ r).
Proof.
  induction 1 as [|b pre Hb _ IH].
  - cbn [app]. by destruct (replace_regex _ _ s).
  - cbn [app]. rewrite replace_regex_no_match by (by apply multibyteSeq_none).
    rewrite IH. by destruct (replace_regex _ _ s).
Qed.

(** X10. Where [atob] is used, bytes below 0xC0 are given back as code
    units, one for one: ASCII, and also the bytes 0x80 to 0xBF, which are
    no UTF-8 where no lead byte precedes them. *)
Theorem decode_low_bytes (p : Platform) (bytes : list Z) :
  runningInNode p = false → Forall (λ b, 0 ≤ b < 0xC0) bytes →
  decode_value p (toUrlSafe (base64_encode bytes)) = Ok bytes.
Proof.
  intros Hp Hlow.
  rewrite decode_value_encode, Hp
    by (eapply Forall_impl; [exact Hlow|]; unfold byte; intros b; cbn; lia).
  rewrite <- (app_nil_r bytes) at 1. rewrite replace_multibyteSeq_low.
  - cbn. by rewrite app_nil_r.
  - eapply Forall_impl; [exact Hlow|]. intros b. cbn. lia.
Qed.

Lemma decode_low_bytes_witness :
  decode_value Browser (toUrlSafe (base64_encode [0x41; 0x80; 0xBF; 0x7F])) =
  Ok [0x41; 0x80; 0xBF; 0x7F].
Proof.
  apply (decode_low_bytes Browser [0x41; 0x80; 0xBF; 0x7F]).
  - reflexivity.
  - repeat constructor; lia.
Defined.

(** X11. Where [atob] is used, a sequence of four bytes that [multibyteSeq]
    matches and that stands for a number above 0x10FFFF makes [decodeBase64]
    throw the [RangeError] of [String.fromCodePoint], when only bytes below
    0xC0 precede it. *)
Theorem decode_range_error (p : Platform) (pre rest : list Z) (b0 b1 b2 b3 : Z) :
  runningInNode p = false →
  Forall (λ b, 0 ≤ b < 0xC0) pre → Forall byte rest →
  0xF0 ≤ b0 ≤ 0xF7 → 0x80 ≤ b1 ≤ 0xBF → 0x80 ≤ b2 ≤ 0xBF → 0x80 ≤ b3 ≤ 0xBF →
  0x10FFFF < (b0 - 0xF0) * 262144 + (b1 - 0x80) * 4096 + (b2 - 0x80) * 64 + (b3 - 0x80) →
  utf8MultibyteToUtf16 [b0; b1; b2; b3] = Throw RangeError ∧
  decode_value p (toUrlSafe (base64_encode (pre ++ [b0; b1; b2; b3] ++ rest))) =
    Throw RangeError.
Proof.
  intros Hp Hpre Hrest H0 H1 H2 H3 Hcp.
  assert (utf8MultibyteToUtf16 [b0; b1; b2; b3] = Throw RangeError) as Hthrow.
  { rewrite utf8MultibyteToUtf16_matched4 by done. unfold fromCodePoint.
    rewrite (proj2 (Z.ltb_lt 0x10FFFF _)) by done. by rewrite orb_true_r. }
  split; [done|].
  rewrite decode_value_encode, Hp; last first.
  { apply Forall_app. split.
    - eapply Forall_impl; [exact Hpre|]. unfold byte. intros b. cbn. lia.
    - apply Forall_app. split; [|done]. repeat constructor; unfold byte; lia. }
  rewrite replace_multibyteSeq_low
    by (eapply Forall_impl; [exact Hpre|]; intros b; cbn; lia).
  rewrite (replace_regex_match _ _ _ [_; _; _]) by (by apply multibyteSeq_four).
  by rewrite Hthrow.
Qed.

Lemma decode_range_error_witness :
  decode_value Browser
    (toUrlSafe (base64_encode ([0x41] ++ [0xF4; 0x90; 0x80; 0x80] ++ [0x42]))) =
  Throw RangeError.
Proof.
  apply (decode_range_error Browser [0x41] [0x42] 0xF4 0x90 0x80 0x80).
  - reflexivity.
  - repeat constructor; lia.
  - repeat constructor; unfold byte; lia.
  - lia.
  - lia.
  - lia.
  - lia.
  - lia.
Defined.

(** X12. Where [atob] is used, two or three bytes that [multibyteSeq]
    matches are always decoded, to the number their low bits make: no
    shortest form is required, so that 0xC1 0x81 gives "A" as 0x41 does, and
    a surrogate is decoded as any other code unit. *)
Theorem decode_unchecked_sequences (p : Platform) (b0 b1 c0 c1 c2 : Z) :
  runningInNode p = false →
  0xC0 ≤ b0 ≤ 0xDF → 0x80 ≤ b1 ≤ 0xBF →
  0xE0 ≤ c0 ≤ 0xEF → 0x80 ≤ c1 ≤ 0xBF → 0x80 ≤ c2 ≤ 0xBF →
  decode_value p (toUrlSafe (base64_encode [b0; b1])) =
    Ok [(b0 - 0xC0) * 64 + (b1 - 0x80)] ∧
  decode_value p (toUrlSafe (base64_encode [c0; c1; c2])) =
    Ok [(c0 - 0xE0) * 4096 + (c1 - 0x80) * 64 + (c2 - 0x80)].
Proof.
  intros Hp Hb0 Hb1 Hc0 Hc1 Hc2. split.
  - rewrite decode_value_encode, Hp by (repeat constructor; unfold byte; lia).
    rewrite <- (app_nil_r [b0; b1]).
    rewrite (replace_regex_match _ _ _ [_]) by (by apply multibyteSeq_two).
    by rewrite utf8MultibyteToUtf16_matched2.
  - rewrite decode_value_encode, Hp by (repeat constructor; unfold byte; lia).
    rewrite <- (app_nil_r [c0; c1; c2]).
    rewrite (replace_regex_match _ _ _ [_; _]) by (by apply multibyteSeq_three).
    by rewrite utf8MultibyteToUtf16_matched3.
Qed.

Lemma decode_unchecked_sequences_witness :
  decode_value Browser (toUrlSafe (base64_encode [0xC1; 0x81])) = Ok [0x41] ∧
  decode_value Browser (toUrlSafe (base64_encode [0xED; 0xA0; 0x80])) = Ok [0xD800].
Proof.
  apply (decode_unchecked_sequences Browser 0xC1 0x81 0xED 0xA0 0x80);
    [reflexivity|lia..].
Defined.

(** ** The substitutions of [toUrlSafe] and [fromUrlSafe] *)

(** X13. The two replacements of [toUrlSafe] act as one substitution of
    characters, [+] by [-] and [/] by [_], and those of [fromUrlSafe] as the
    substitution of [-] by [+] and [_] by [/]: the length is kept, applying
    one twice is applying it once, and each absorbs the other. *)
Theorem url_safe_substitutions (s : jsstring) :
  toUrlSafe s = (λ u, if u =? 43 then 45 else if u =? 47 then 95 else u) <$> s ∧
  fromUrlSafe s = (λ u, if u =? 45 then 43 else if u =? 95 then 47 else u) <$> s ∧
  length (toUrlSafe s) = length s ∧ length (fromUrlSafe s) = length s ∧
  toUrlSafe (toUrlSafe s) = toUrlSafe s ∧
  fromUrlSafe (fromUrlSafe s) = fromUrlSafe s ∧
  toUrlSafe (fromUrlSafe s) = toUrlSafe s ∧
  fromUrlSafe (toUrlSafe s) = fromUrlSafe s.
Proof.
  split; [apply toUrlSafe_map|]. split; [apply fromUrlSafe_map|].
  split; [apply toUrlSafe_length|].
  split; [by rewrite fromUrlSafe_map, length_fmap|].
  rewrite ?toUrlSafe_map, ?fromUrlSafe_map, ?toUrlSafe_map.
  rewrite <- !list_fmap_compose.
  split_and!; apply list_fmap_ext; intros _ u _; cbn;
    repeat match goal with
           | |- context [?a =? ?b] =>
               is_var a; destruct (Z.eqb_spec a b); cbn; try lia
           end; try done.
Qed.

(** X14. [fromUrlSafe] inverts [toUrlSafe] on the strings without [-] and
    [_], as the output of Base64 is, and [toUrlSafe] inverts [fromUrlSafe]
    on the strings without [+] and [/], as the output of [encodeBase64]
    is. *)
Theorem url_safe_inverse (s1 s2 : jsstring) :
  Forall (λ c, c ≠ 45 ∧ c ≠ 95) s1 → Forall (λ c, c ≠ 43 ∧ c ≠ 47) s2 →
  fromUrlSafe (toUrlSafe s1) = s1 ∧ toUrlSafe (fromUrlSafe s2) = s2.
Proof.
  intros H1 H2. split; [by apply fromUrlSafe_toUrlSafe|].
  rewrite toUrlSafe_map, fromUrlSafe_map.
  induction H2 as [|c s [Hp Hs] _ IH]; [done|].
  rewrite !fmap_cons, IH. f_equal.
  destruct (Z.eqb_spec c 45) as [->|]; [done|].
  destruct (Z.eqb_spec c 95) as [->|]; [done|].
  destruct (Z.eqb_spec c 43); [done|]. by destruct (Z.eqb_spec c 47).
Qed.

Lemma url_safe_inverse_witness :
  fromUrlSafe (toUrlSafe (lit "a+b/c=")) = lit "a+b/c=" ∧
  toUrlSafe (fromUrlSafe (lit "a-b_c")) = lit "a-b_c".
Proof.
  apply (url_safe_inverse (lit "a+b/c=") (lit "a-b_c"));
    apply (bool_decide_unpack _); vm_compute; exact I.
Defined.

(** ** Exceptions and arrays of the tensor operations *)

(** X15. When a value fails to decode and the values before it decode,
    [decodeBase64] throws the exception of that value, whichever it is, and
    returns no tensor; every array of the heap, the input among them, is
    left as it was. *)
Theorem decodeBase64_fail_fast (p : Platform) (t : Tensor) (h : heap)
    (pre post : list jsstring) (s : jsstring) (e : exn) :
  dtype t = string_ →
  h !! dataId t = Some (JString <$> (pre ++ s :: post)) →
  Forall (λ x, ∃ y, decode_value p x = Ok y) pre →
  decode_value p s = Throw e →
  ∃ h', decodeBase64_ p t h = Raise e h' ∧
        ∀ l, l ∈ dom h → h' !! l = h !! l.
Proof.
  intros Hdt Harr Hpre Hs. rewrite decodeBase64_tensor_map.
  pose proof (tensor_map_strings (decode_value p) t h _ Hdt Harr) as H.
  rewrite (proj2 (mapM_result_Throw (decode_value p) (pre ++ s :: post) e)) in H
    by (by exists pre, s, post).
  destruct H as [res ->]. eexists. split; [done|].
  intros l Hl. apply lookup_insert_ne. intros <-. by apply (is_fresh (dom h)).
Qed.

Lemma decodeBase64_fail_fast_witness :
  ∃ h', decodeBase64_ Browser (mkTensor [3]%nat string_ 1%positive)
          {[ 1%positive := JString <$> [lit "8J2Mhg"; lit "9JCAgA"; lit "*"] ]} =
        Raise RangeError h' ∧
        ∀ l, l ∈ dom ({[ 1%positive := JString <$> [lit "8J2Mhg"; lit "9JCAgA"; lit "*"] ]}
                        : heap) →
             h' !! l =
             ({[ 1%positive := JString <$> [lit "8J2Mhg"; lit "9JCAgA"; lit "*"] ]}
                : heap) !! l.
Proof.
  apply (decodeBase64_fail_fast Browser (mkTensor [3]%nat string_ 1%positive)
           {[ 1%positive := JString <$> [lit "8J2Mhg"; lit "9JCAgA"; lit "*"] ]}
           [lit "8J2Mhg"] [lit "*"] (lit "9JCAgA") RangeError).
  - reflexivity.
  - reflexivity.
  - constructor; [|constructor]. eexists. vm_compute. reflexivity.
  - vm_compute. reflexivity.
Defined.

(** X16. On a tensor of valid Unicode strings of any shape, [decodeBase64]
    of [encodeBase64] returns a tensor of the same shape, of dtype string
    and of the same values; the two results are on two new arrays, and the
    array of the input still holds its values. *)
Theorem decodeBase64_encodeBase64_tensor (p : Platform) (pad : bool) (t : Tensor)
    (h : heap) (vals : list jsstring) :
  dtype t = string_ →
  h !! dataId t = Some (JString <$> vals) →
  size t = length vals →
  Forall well_formed vals →
  ∃ t1 h1 t2 h2,
    encodeBase64_ p t pad h = Done t1 h1 ∧
    decodeBase64_ p t1 h1 = Done t2 h2 ∧
    shape t2 = shape t ∧ dtype t2 = string_ ∧
    h2 !! dataId t2 = Some (JString <$> vals) ∧
    h2 !! dataId t = Some (JString <$> vals) ∧
    dataId t1 ≠ dataId t ∧ dataId t2 ≠ dataId t ∧ dataId t2 ≠ dataId t1.
Proof.
  intros Hdt Harr Hsize Hvals.
  destruct (mapM_result_total (encode_value p pad) vals) as [outs Houts].
  { eapply Forall_impl; [exact Hvals|]. intros v Hv.
    rewrite encode_value_eq by (by apply well_formed_is_jsstring). by eexists. }
  apply mapM_result_Ok in Houts.
  destruct (tensor_map_Done (encode_value p pad) t h vals Hdt Harr Hsize)
    as [Henc _].
  destruct (Henc outs Houts) as (t1 & h1 & Hrun1 & Hshape1 & Hdt1 & Hval1).
  assert (Forall2 (λ o v, decode_value p o = Ok v) outs vals) as Hdec.
  { clear -Houts Hvals.
    induction Houts as [|v o vals outs Hv _ IH]; [constructor|].
    apply Forall_cons in Hvals as [Hwf Hvals]. constructor; [|by apply IH].
    pose proof (decode_encode_value p p pad v Hwf) as H. by rewrite Hv in H. }
  destruct (tensor_map_Done (decode_value p) t1 h1 outs) as [Hdone _].
  { by rewrite Hdt1. }
  { done. }
  { unfold size. rewrite Hshape1. fold (size t). rewrite Hsize.
    by eapply Forall2_length. }
  destruct (Hdone vals Hdec) as (t2 & h2 & Hrun2 & Hshape2 & Hdt2 & Hval2).
  destruct (tensor_map_frame (encode_value p pad) t h _ Harr)
    as (Hold1 & Hnew1 & _).
  rewrite Hrun1 in Hold1, Hnew1. cbn [outcome_heap] in Hold1.
  destruct (Hnew1 t1 h1 eq_refl) as [Hfresh1 _].
  destruct (tensor_map_frame (decode_value p) t1 h1 _ Hval1)
    as (Hold2 & Hnew2 & _).
  rewrite Hrun2 in Hold2, Hnew2. cbn [outcome_heap] in Hold2.
  destruct (Hnew2 t2 h2 eq_refl) as [Hfresh2 _].
  assert (dataId t ∈ dom h) as Hin by (apply elem_of_dom; by eexists).
  assert (dataId t ∈ dom h1) as Hin1
    by (apply elem_of_dom; rewrite Hold1 by done; by eexists).
  assert (dataId t1 ∈ dom h1) as Hin1' by (apply elem_of_dom; by eexists).
  exists t1, h1, t2, h2. split_and!; try done.
  - by rewrite Hshape2.
  - by rewrite Hdt2, Hdt1.
  - by rewrite Hold2, Hold1.
  - intros Heq. apply Hfresh1. by rewrite Heq.
  - intros Heq. apply Hfresh2. by rewrite Heq.
  - intros Heq. apply Hfresh2. by rewrite Heq.
Qed.

Lemma decodeBase64_encodeBase64_tensor_witness :
  ∃ t1 h1 t2 h2,
    encodeBase64_ LegacyNode test_tensor2d true test_heap = Done t1 h1 ∧
    decodeBase64_ LegacyNode t1 h1 = Done t2 h2 ∧
    shape t2 = shape test_tensor2d ∧ dtype t2 = string_ ∧
    h2 !! dataId t2 = Some (JString <$> txtArr) ∧
    h2 !! dataId test_tensor2d = Some (JString <$> txtArr) ∧
    dataId t1 ≠ dataId test_tensor2d ∧ dataId t2 ≠ dataId test_tensor2d ∧
    dataId t2 ≠ dataId t1.
Proof.
  apply (decodeBase64_encodeBase64_tensor LegacyNode true test_tensor2d test_heap
           txtArr).
  - reflexivity.
  - reflexivity.
  - reflexivity.
  - apply (bool_decide_unpack _). vm_compute. exact I.
Defined.
